(** * EventHive: session manager, events-page filter and access-scoped store

    The client half of this development embeds
    [frontend/event-tracker-ui/src/utils/api.js] (token storage, the axios
    request and response interceptors, [authAPI]), its sibling copy of the
    same module that posts the refresh with axios instead of [fetch],
    [contexts/AuthContext.jsx] ([initAuth], [login], [register], [logout]),
    the route guards of [App.jsx], the [filteredEvents] memo and the status
    badge of [pages/EventsPage.jsx], the forms of [pages/LoginPage.jsx] and
    [pages/CreateEventPage.jsx], [components/Tutorial.jsx], the retry delay
    of [contexts/QueryProvider.jsx] and [getCookie] of the page script.

    The access-scoped query layer and the share links of the Django backend
    (backend/events/views.py) are modelled from the specification. *)

From stdpp Require Import gmap strings list.
From Stdlib Require Import ZArith.

Local Open Scope string_scope.
Local Open Scope Z_scope.

(* ===================================================================== *)
(** * JavaScript values                                                   *)
(* ===================================================================== *)

(** A value read from a JSON payload, as far as the token code looks at it.
    [JSUndefined] is what destructuring yields for an absent property.  Any
    other JSON value behaves like the [JSString] of its string conversion,
    both in [localStorage.setItem] and inside a template literal. *)
Inductive js_value : Type :=
| JSUndefined
| JSNull
| JSString (s : string).

(** [String(v)], the conversion applied by [setItem] and by [`${v}`]. *)
Definition to_string (v : js_value) : string :=
  match v with
  | JSUndefined => "undefined"
  | JSNull => "null"
  | JSString s => s
  end.

(** Truthiness of the result of [localStorage.getItem]: [null] and the
    empty string are falsy, every other string is truthy. *)
Definition truthy (v : option string) : bool :=
  match v with
  | Some s => negb (String.eqb s "")
  | None => false
  end.

(** [if (v) yes(v) else no] for such a value. *)
Definition if_truthy {A : Type} (v : option string) (yes : string -> A) (no : A) : A :=
  match v with
  | Some s => if String.eqb s "" then no else yes s
  | None => no
  end.

(** [s.includes(search)]: [search] occurs in [s] as a substring. *)
Fixpoint includes (s search : string) : bool :=
  String.prefix search s ||
  match s with
  | EmptyString => false
  | String _ rest => includes rest search
  end.

(* ===================================================================== *)
(** * Requests, the network log and the browser state                     *)
(* ===================================================================== *)

(** The fields of an axios request config that the interceptors read or
    write.  [_retry] is absent (falsy) on every config built by the
    application and is only ever set by the response interceptor. *)
Record request_config : Type := {
  url : string;
  method : string;
  Authorization : option string;
  _retry : bool;
}.

Definition with_Authorization (h : string) (c : request_config) : request_config :=
  {| url := url c; method := method c; Authorization := Some h; _retry := _retry c |}.

Definition with_retry (c : request_config) : request_config :=
  {| url := url c; method := method c; Authorization := Authorization c; _retry := true |}.

(** What leaves the browser: a request sent through the [api] instance, or
    a POST of the refresh token to [/auth/refresh/]. *)
Inductive net_event : Type :=
| Sent (config : request_config)
| RefreshPosted (refresh : string).

Definition is_refresh (e : net_event) : bool :=
  match e with RefreshPosted _ => true | Sent _ => false end.

Definition is_sent (e : net_event) : bool :=
  match e with Sent _ => true | RefreshPosted _ => false end.

Definition refresh_attempts (log : list net_event) : nat :=
  length (List.filter is_refresh log).

Definition dispatches (log : list net_event) : nat :=
  length (List.filter is_sent log).

(** [localStorage], [window.location.href] and the history of network
    events (the history is ghost state: the code never reads it). *)
Record world : Type := {
  localStorage : gmap string string;
  location_href : string;
  network_log : list net_event;
}.

Definition TOKEN_KEY : string := "access_token".
Definition REFRESH_TOKEN_KEY : string := "refresh_token".

Definition getItem (k : string) (w : world) : option string :=
  localStorage w !! k.

Definition setItem (k : string) (v : js_value) (w : world) : world :=
  {| localStorage := <[k := to_string v]> (localStorage w);
     location_href := location_href w;
     network_log := network_log w |}.

Definition removeItem (k : string) (w : world) : world :=
  {| localStorage := delete k (localStorage w);
     location_href := location_href w;
     network_log := network_log w |}.

Definition set_location_href (h : string) (w : world) : world :=
  {| localStorage := localStorage w;
     location_href := h;
     network_log := network_log w |}.

Definition record_event (e : net_event) (w : world) : world :=
  {| localStorage := localStorage w;
     location_href := location_href w;
     network_log := network_log w ++ [e] |}.

(** ** Token storage (utils/api.js) *)

Definition getAccessToken (w : world) : option string := getItem TOKEN_KEY w.

Definition getRefreshToken (w : world) : option string := getItem REFRESH_TOKEN_KEY w.

Definition setTokens (accessToken refreshToken : js_value) (w : world) : world :=
  setItem REFRESH_TOKEN_KEY refreshToken (setItem TOKEN_KEY accessToken w).

Definition clearTokens (w : world) : world :=
  removeItem REFRESH_TOKEN_KEY (removeItem TOKEN_KEY w).

Definition isAuthenticated (w : world) : bool := truthy (getAccessToken w).

(** The two token slots are filled together and emptied together, as
    [setTokens] and [clearTokens] leave them. *)
Definition tokens_paired (w : world) : Prop :=
  is_Some (getAccessToken w) <-> is_Some (getRefreshToken w).

(* ===================================================================== *)
(** * The refresh endpoint as seen by the two transports                  *)
(* ===================================================================== *)

(** Body of the reply of [/auth/refresh/]: text that is not JSON, the JSON
    value [null], or any other JSON value together with what reading its
    [access] property gives. *)
Inductive refresh_body : Type :=
| BodyNotJson
| BodyJsonNull
| BodyJson (access : js_value).

Inductive refresh_reply : Type :=
| RefreshNoReply
| RefreshReply (status : Z) (body : refresh_body).

(** axios' default [validateStatus]. *)
Definition validateStatus (status : Z) : bool :=
  (200 <=? status) && (status <? 300).

(** The two copies of the module differ in how the refresh is posted. *)
Inductive refresh_transport : Type :=
| ViaFetch        (* utils/api.js: fetch(...) then refreshResponse.json() *)
| ViaAxiosPost.   (* sibling copy: axios.post(...) *)

(** Result of the statements of the [try] block up to
    [const { access } = response.data]. *)
Inductive refresh_result : Type :=
| Refreshed (access : js_value)
| RefreshThrew.

(** [fetch] rejects only when there is no reply; [json()] throws on text
    that is not JSON and destructuring throws on [null].  The status is
    never looked at. *)
Definition access_via_fetch (r : refresh_reply) : refresh_result :=
  match r with
  | RefreshNoReply => RefreshThrew
  | RefreshReply _ BodyNotJson => RefreshThrew
  | RefreshReply _ BodyJsonNull => RefreshThrew
  | RefreshReply _ (BodyJson access) => Refreshed access
  end.

(** [axios.post] rejects when there is no reply or when [validateStatus]
    fails; text that is not JSON is kept as a string, whose [access]
    property is [undefined]; destructuring throws on [null]. *)
Definition access_via_axios (r : refresh_reply) : refresh_result :=
  match r with
  | RefreshNoReply => RefreshThrew
  | RefreshReply status body =>
      if validateStatus status then
        match body with
        | BodyNotJson => Refreshed JSUndefined
        | BodyJsonNull => RefreshThrew
        | BodyJson access => Refreshed access
        end
      else RefreshThrew
  end.

Definition request_access (t : refresh_transport) (r : refresh_reply) : refresh_result :=
  match t with
  | ViaFetch => access_via_fetch r
  | ViaAxiosPost => access_via_axios r
  end.

(** The backend accepted the refresh token and issued [access]. *)
Definition refresh_succeeds (r : refresh_reply) (access : string) : Prop :=
  exists status, validateStatus status = true /\
                 r = RefreshReply status (BodyJson (JSString access)).

(** The refresh failed: no reply at all, or a reply outside 2xx (simplejwt
    answers 401 with a JSON object that has no [access] property). *)
Definition refresh_fails (r : refresh_reply) : Prop :=
  match r with
  | RefreshNoReply => True
  | RefreshReply status _ => validateStatus status = false
  end.

(* ===================================================================== *)
(** * The axios instance [api] with its two interceptors                  *)
(* ===================================================================== *)

Section Client.

(** Payloads of replies on the [api] instance (JSON objects). *)
Context {json : Type}.

Inductive http_reply : Type :=
| Reply (status : Z) (data : json)
| NoReply.

(** What a rejected promise carries: an axios error with its [config] and
    optional [response], or whatever the refresh threw. *)
Inductive failure : Type :=
| AxiosError (config : request_config) (response : option (Z * json))
| RefreshError.

Inductive outcome : Type :=
| Resolved (status : Z) (data : json) (config : request_config)
| Rejected (error : failure).

(** What the adapter settles a dispatched request with, before the response
    interceptor runs. *)
Definition settle (config : request_config) (reply : http_reply) : outcome :=
  match reply with
  | Reply status data =>
      if validateStatus status then Resolved status data config
      else Rejected (AxiosError config (Some (status, data)))
  | NoReply => Rejected (AxiosError config None)
  end.

(** The backend is any deterministic function of the history of network
    events and of the incoming request. *)
Variable backend : list net_event -> request_config -> http_reply.
Variable refresh_endpoint : list net_event -> string -> refresh_reply.

Variable transport : refresh_transport.

(** [api.interceptors.request.use]: attach the stored access token. *)
Definition request_interceptor (w : world) (config : request_config) : request_config :=
  if_truthy (getAccessToken w)
    (fun token => with_Authorization ("Bearer " +:+ token) config)
    config.

(** [error.response?.status === 401] *)
Definition status_is_401 (response : option (Z * json)) : bool :=
  match response with
  | Some (status, _) => status =? 401
  | None => false
  end.

(** The rejection handler of [api.interceptors.response.use].  [api_rec]
    is the [api] instance the handler calls for the retry. *)
Definition on_rejected
    (api_rec : world -> request_config -> option (world * outcome))
    (w : world) (config : request_config) (response : option (Z * json))
    : option (world * outcome) :=
  let originalRequest := config in
  if status_is_401 response && negb (_retry originalRequest) then
    let originalRequest := with_retry originalRequest in
    let refreshToken := getRefreshToken w in
    if_truthy refreshToken
      (fun refreshToken =>
         let reply := refresh_endpoint (network_log w) refreshToken in
         let w := record_event (RefreshPosted refreshToken) w in
         match request_access transport reply with
         | Refreshed access =>
             let w := setTokens access (JSString refreshToken) w in
             let originalRequest :=
               with_Authorization ("Bearer " +:+ to_string access) originalRequest in
             api_rec w originalRequest
         | RefreshThrew =>
             let w := clearTokens w in
             let w := set_location_href "/login" w in
             Some (w, Rejected RefreshError)
         end)
      (let w := clearTokens w in
       let w := set_location_href "/login" w in
       Some (w, Rejected (AxiosError originalRequest response)))
  else Some (w, Rejected (AxiosError originalRequest response)).

(** [api(config)]: request interceptor, adapter, response interceptor.
    The fuel bounds the depth of retries; [api_total] shows that two
    units always suffice. *)
Fixpoint api (fuel : nat) (w : world) (config : request_config)
    : option (world * outcome) :=
  match fuel with
  | O => None
  | S fuel' =>
      let config := request_interceptor w config in
      let reply := backend (network_log w) config in
      let w := record_event (Sent config) w in
      match reply with
      | Reply status data =>
          if validateStatus status
          then Some (w, Resolved status data config)
          else on_rejected (api fuel') w config (Some (status, data))
      | NoReply => on_rejected (api fuel') w config None
      end
  end.

(** ** contexts/AuthContext.jsx *)

Record auth_state : Type := {
  user : option json;
  isLoading : bool;
}.

(** [useState(null)], [useState(true)] *)
Definition initial_auth_state : auth_state :=
  {| user := None; isLoading := true |}.

(** [isAuthenticated: !!user] of the context value. *)
Definition context_isAuthenticated (s : auth_state) : bool :=
  match user s with Some _ => true | None => false end.

Definition profile_request : request_config :=
  {| url := "/auth/profile/"; method := "get"; Authorization := None; _retry := false |}.

(** [authAPI.getProfile] *)
Definition getProfile (fuel : nat) (w : world) : option (world * outcome) :=
  api fuel w profile_request.

Definition initAuth (fuel : nat) (w : world) (s : auth_state)
    : option (world * auth_state) :=
  if isAuthenticated w then
    match getProfile fuel w with
    | Some (w, Resolved _ data _) =>
        Some (w, {| user := Some data; isLoading := false |})
    | Some (w, Rejected _) =>
        Some (clearTokens w, {| user := user s; isLoading := false |})
    | None => None
    end
  else Some (w, {| user := user s; isLoading := false |}).

End Client.

Arguments Reply {json} status data.
Arguments NoReply {json}.

(* ===================================================================== *)
(** * pages/EventsPage.jsx: the client-side filter                        *)
(* ===================================================================== *)

Module EventsPage.

(** An element of the [events] state, with the properties the filter
    reads.  [description] is [None] when the property is null or absent. *)
Record event : Type := {
  id : Z;
  title : string;
  date_time : string;
  location : string;
  description : option string;
}.

(** Time value of a [Date]: [None] stands for NaN (Invalid Date). *)
Definition time_value : Type := option Z.

(** date-fns [isAfter(date, dateToCompare)]: [+date > +dateToCompare]. *)
Definition isAfter (date dateToCompare : time_value) : bool :=
  match date, dateToCompare with
  | Some d, Some c => c <? d
  | _, _ => false
  end.

(** date-fns [isBefore(date, dateToCompare)]: [+date < +dateToCompare]. *)
Definition isBefore (date dateToCompare : time_value) : bool :=
  match date, dateToCompare with
  | Some d, Some c => d <? c
  | _, _ => false
  end.

Section Filter.

(** [new Date(string)] and [String.prototype.toLowerCase] are taken as
    they come from the JavaScript runtime. *)
Variable parse_date : string -> time_value.
Variable toLowerCase : string -> string.

(** [now] is the time value of [new Date()] at evaluation. *)
Variable now : Z.

Definition matchesFilter (filter : string) (event : event) : bool :=
  let eventDate := parse_date (date_time event) in
  if String.eqb filter "upcoming" then isAfter eventDate (Some now)
  else if String.eqb filter "past" then isBefore eventDate (Some now)
  else true.

Definition matchesSearch (searchTerm : string) (event : event) : bool :=
  String.eqb searchTerm "" ||
  includes (toLowerCase (title event)) (toLowerCase searchTerm) ||
  includes (toLowerCase (location event)) (toLowerCase searchTerm) ||
  if_truthy (description event)
    (fun d => includes (toLowerCase d) (toLowerCase searchTerm))
    false.

Definition filteredEvents (events : list event) (filter searchTerm : string)
    : list event :=
  List.filter
    (fun event => matchesFilter filter event && matchesSearch searchTerm event)
    events.

End Filter.

End EventsPage.

(* ===================================================================== *)
(** * The access-scoped query layer and share links                       *)
(* ===================================================================== *)

Module Backend.

Definition identity : Type := Z.

Record Event : Type := {
  owner : identity;
  title : string;
  date_time : Z;
  location : string;
  description : option string;
  share_id : option string;
}.

(** The fields an owner may change; ownership is permanent and the share
    identifier is stable. *)
Record EventFields : Type := {
  new_title : string;
  new_date_time : Z;
  new_location : string;
  new_description : option string;
}.

(** Display names of the registered users, and the events by id. *)
Record store : Type := {
  users : gmap Z string;
  events : gmap Z Event;
}.

(** The error taxonomy, with the 403-class signal next to it. *)
Inductive error : Type :=
| ValidationError
| Unauthenticated
| Forbidden
| NotFound
| RateLimited
| Internal.

Inductive result (A : Type) : Type :=
| Ok (a : A)
| Err (e : error).
Arguments Ok {A} a.
Arguments Err {A} e.

(** The public-safe fields of an event. *)
Record PublicEvent : Type := {
  public_title : string;
  public_time : Z;
  public_location : string;
  public_description : option string;
  public_owner_name : option string;
}.

(** Modelled from the spec: the public-safe projection returned by the
    share-link path of the backend (title, time, location, description and
    the display name of the owner). *)
Definition public_projection (st : store) (e : Event) : PublicEvent :=
  {| public_title := title e;
     public_time := date_time e;
     public_location := location e;
     public_description := description e;
     public_owner_name := users st !! owner e |}.

Definition with_fields (f : EventFields) (e : Event) : Event :=
  {| owner := owner e;
     title := new_title f;
     date_time := new_date_time f;
     location := new_location f;
     description := new_description f;
     share_id := share_id e |}.

Definition with_share_id (s : string) (e : Event) : Event :=
  {| owner := owner e;
     title := title e;
     date_time := date_time e;
     location := location e;
     description := description e;
     share_id := Some s |}.

Definition with_events (m : gmap Z Event) (st : store) : store :=
  {| users := users st; events := m |}.

Definition owned_by (who : identity) (kv : Z * Event) : bool :=
  bool_decide (owner kv.2 = who).

(** Modelled from the spec: the event list operation of the backend
    (backend/events/views.py is not among the sources).  [list(identity)]
    returns all events owned by [identity], and only those. *)
Definition list_events (st : store) (who : identity) : list (Z * Event) :=
  List.filter (owned_by who) (map_to_list (events st)).

Section Filtering.

(** The allow-list of filter keys and the meaning of an allow-listed
    filter; the specification leaves both open. *)
Variable allowed_filter : string -> bool.
Variable filter_matches : string -> string -> Event -> bool.

(** Modelled from the spec: the filtering discipline of the backend's list
    endpoint.  A client-supplied parameter is applied only when its key is
    on the allow-list; any other key is ignored. *)
Definition passes (params : list (string * string)) (kv : Z * Event) : bool :=
  forallb (fun p => if allowed_filter p.1
                    then filter_matches p.1 p.2 kv.2
                    else true) params.

(** Modelled from the spec: the backend's list endpoint, [list(identity)]
    narrowed by the allow-listed query parameters. *)
Definition list_endpoint (st : store) (who : identity)
    (params : list (string * string)) : list (Z * Event) :=
  List.filter (passes params) (list_events st who).

End Filtering.

(** Modelled from the spec: [get(identity, eventId)] of the backend.  It
    returns the event if owned by [identity] and fails with [NotFound]
    when the event is owned by someone else or does not exist. *)
Definition get (st : store) (who : identity) (eventId : Z) : result Event :=
  match events st !! eventId with
  | Some e => if bool_decide (owner e = who) then Ok e else Err NotFound
  | None => Err NotFound
  end.

(** Modelled from the spec: [update(identity, eventId, ...)] of the
    backend; it requires ownership and fails with [NotFound] otherwise. *)
Definition update (st : store) (who : identity) (eventId : Z) (f : EventFields)
    : result store :=
  match get st who eventId with
  | Ok e => Ok (with_events (<[eventId := with_fields f e]> (events st)) st)
  | Err err => Err err
  end.

(** Modelled from the spec: [delete(identity, eventId)] of the backend. *)
Definition delete_event (st : store) (who : identity) (eventId : Z) : result store :=
  match get st who eventId with
  | Ok _ => Ok (with_events (delete eventId (events st)) st)
  | Err err => Err err
  end.

(** What [generate] does for an event that is already shared: the spec
    allows either policy. *)
Inductive regenerate_policy : Type :=
| ReturnExisting
| MintNew.

(** Modelled from the spec: [generate(identity, eventId)] of the backend.
    It requires ownership through [get]; [fresh] is the random identifier
    drawn for this call. *)
Definition generate (policy : regenerate_policy) (st : store) (who : identity)
    (eventId : Z) (fresh : string) : result (store * string) :=
  match get st who eventId with
  | Ok e =>
      match share_id e, policy with
      | Some s, ReturnExisting => Ok (st, s)
      | _, _ =>
          Ok (with_events (<[eventId := with_share_id fresh e]> (events st)) st, fresh)
      end
  | Err err => Err err
  end.

(** ** Share identifier format *)

Definition in_range (lo hi : N) (c : Ascii.ascii) : bool :=
  ((lo <=? Ascii.N_of_ascii c) && (Ascii.N_of_ascii c <=? hi))%N.

(** Hexadecimal digits and the hyphen: the alphabet of a printed UUID. *)
Definition share_id_char (c : Ascii.ascii) : bool :=
  in_range 48 57 c || in_range 97 102 c || in_range 65 70 c || in_range 45 45 c.

Fixpoint all_chars (p : Ascii.ascii -> bool) (s : string) : bool :=
  match s with
  | EmptyString => true
  | String c rest => p c && all_chars p rest
  end.

(** Modelled from the spec: the format check of the public resolve
    operation, a fixed length and a restricted character set (the
    repository's security notes give the length, 36, of a UUID). *)
Definition valid_share_id (s : string) : bool :=
  (String.length s =? 36)%nat && all_chars share_id_char s.

(** Queries that reach the storage layer. *)
Inductive storage_access : Type :=
| EventByShareId (s : string)
| UserById (u : identity).

Definition shared_as (s : string) (kv : Z * Event) : bool :=
  bool_decide (share_id kv.2 = Some s).

(** Modelled from the spec: the storage lookup of the backend that maps a
    share identifier to its event. *)
Definition find_shared (st : store) (s : string) : option (Z * Event) :=
  head (List.filter (shared_as s) (map_to_list (events st))).

(** Modelled from the spec: [resolve(shareId)] of the backend.  The
    format is checked before any storage lookup; there is no requester
    identity and no ownership check.  The second component lists the
    storage queries that were made. *)
Definition resolve (st : store) (shareId : string)
    : result PublicEvent * list storage_access :=
  if valid_share_id shareId then
    match find_shared st shareId with
    | Some (_, e) =>
        (Ok (public_projection st e), [EventByShareId shareId; UserById (owner e)])
    | None => (Err NotFound, [EventByShareId shareId])
    end
  else (Err NotFound, []).

(** No two events carry the same share identifier. *)
Definition share_ids_unique (st : store) : Prop :=
  forall i j ei ej s,
    events st !! i = Some ei -> events st !! j = Some ej ->
    share_id ei = Some s -> share_id ej = Some s -> i = j.

(** Every share identifier in the store has the format of a share
    identifier. *)
Definition share_ids_well_formed (st : store) : Prop :=
  forall i e s,
    events st !! i = Some e -> share_id e = Some s -> valid_share_id s = true.

(** [s] is not yet the share identifier of any event. *)
Definition unused_share_id (st : store) (s : string) : Prop :=
  forall i e, events st !! i = Some e -> share_id e <> Some s.

End Backend.

(* ===================================================================== *)
(** * Example sessions, pages and stores                                  *)
(* ===================================================================== *)

Module Scenario.

Definition empty_world : world :=
  {| localStorage := ∅; location_href := "/events"; network_log := [] |}.

(** A browser that holds a token pair whose access token has expired. *)
Definition stored_session : world :=
  setTokens (JSString "old-access") (JSString "refresh-1") empty_world.

Definition events_request : request_config :=
  {| url := "/events/"; method := "get"; Authorization := None; _retry := false |}.

(** A backend that rejects every request, whatever token it carries. *)
Definition always_401 (_ : list net_event) (_ : request_config) : @http_reply string :=
  Reply 401 "token_not_valid".

(** A backend that accepts the bearer token [new-access] only. *)
Definition accepts_new_access (_ : list net_event) (c : request_config)
    : @http_reply string :=
  if bool_decide (Authorization c = Some "Bearer new-access")
  then Reply 200 "alice"
  else Reply 401 "token_not_valid".

(** The refresh endpoint issues [new-access]. *)
Definition refresh_issues_new (_ : list net_event) (_ : string) : refresh_reply :=
  RefreshReply 200 (BodyJson (JSString "new-access")).

(** The refresh endpoint rejects the refresh token the way simplejwt does:
    status 401 and a JSON object with [detail] and [code], no [access]. *)
Definition refresh_rejected (_ : list net_event) (_ : string) : refresh_reply :=
  RefreshReply 401 (BodyJson JSUndefined).

(** A runtime for the events page: one parsable timestamp, and lower-casing
    of the ASCII letters. *)
Definition parse_date (s : string) : option Z :=
  if String.eqb s "2025-09-16T10:00:00.000Z" then Some 1758016800000 else None.

Definition lower_char (c : Ascii.ascii) : Ascii.ascii :=
  let n := Ascii.N_of_ascii c in
  if ((65 <=? n) && (n <=? 90))%N then Ascii.ascii_of_N (n + 32) else c.

Fixpoint toLowerCase (s : string) : string :=
  match s with
  | EmptyString => EmptyString
  | String c rest => String (lower_char c) (toLowerCase rest)
  end.

Definition standup : EventsPage.event :=
  {| EventsPage.id := 1;
     EventsPage.title := "Standup";
     EventsPage.date_time := "2025-09-16T10:00:00.000Z";
     EventsPage.location := "Room 1";
     EventsPage.description := None |}.

(** A store with two users and one event each; Bob's event is shared. *)
Definition alice : Backend.identity := 1.
Definition bob : Backend.identity := 2.

Definition alice_standup : Backend.Event :=
  {| Backend.owner := alice;
     Backend.title := "Standup";
     Backend.date_time := 1758016800000;
     Backend.location := "Room 1";
     Backend.description := None;
     Backend.share_id := None |}.

Definition bob_review : Backend.Event :=
  {| Backend.owner := bob;
     Backend.title := "Review";
     Backend.date_time := 1758103200000;
     Backend.location := "Room 2";
     Backend.description := Some "quarterly";
     Backend.share_id := Some "0f8fad5b-d9cb-469f-a165-70867728950e" |}.

Definition two_users : Backend.store :=
  {| Backend.users := <[alice := "Alice"]> (<[bob := "Bob"]> ∅);
     Backend.events := <[10 := alice_standup]> (<[20 := bob_review]> ∅) |}.

Definition fresh_share_id : string := "123e4567-e89b-12d3-a456-426614174000".

Definition renamed : Backend.EventFields :=
  {| Backend.new_title := "Daily standup";
     Backend.new_date_time := 1758016800000;
     Backend.new_location := "Room 1";
     Backend.new_description := None |}.

(** An allow-list with a single key, [title], matching the exact title. *)
Definition title_only (k : string) : bool := String.eqb k "title".

Definition title_equals (_ : string) (v : string) (e : Backend.Event) : bool :=
  String.eqb (Backend.title e) v.

End Scenario.

(* ===================================================================== *)
(** * utils/api.js: authAPI; contexts/AuthContext.jsx: login, register,
      logout                                                              *)
(* ===================================================================== *)

(** A property of a payload as the handlers of the auth context read it:
    [undefined] (which also stands for [null]), a string, or an array of
    strings. *)
Inductive field_value : Type :=
| FieldUndefined
| FieldString (s : string)
| FieldArray (items : list string).

(** Truthiness: an array is truthy even when it is empty. *)
Definition field_truthy (v : field_value) : bool :=
  match v with
  | FieldUndefined => false
  | FieldString s => negb (String.eqb s "")
  | FieldArray _ => true
  end.

(** [v?.[0]]: the first element of an array, the first character of a
    string. *)
Definition field_first (v : field_value) : field_value :=
  match v with
  | FieldUndefined => FieldUndefined
  | FieldString EmptyString => FieldUndefined
  | FieldString (String c _) => FieldString (String c EmptyString)
  | FieldArray [] => FieldUndefined
  | FieldArray (x :: _) => FieldString x
  end.

(** [Array.isArray(v) ? v[0] : v] *)
Definition first_if_array (v : field_value) : field_value :=
  match v with
  | FieldArray _ => field_first v
  | _ => v
  end.

(** [a || b] *)
Definition field_or (a b : field_value) : field_value :=
  if field_truthy a then a else b.

(** Calls of react-hot-toast. *)
Inductive toast : Type :=
| ToastSuccess (message : string)
| ToastError (message : field_value).

Section AuthFlows.

Context {json : Type}.

Variable backend : list net_event -> request_config -> @http_reply json.
Variable refresh_endpoint : list net_event -> string -> refresh_reply.

(** How the handlers read a payload: [data.access], [data.refresh],
    [data.user] ([None] when it is undefined or null), [user.first_name],
    and [data[key]] for the message fields of an error payload. *)
Variable prop_access : json -> js_value.
Variable prop_refresh : json -> js_value.
Variable prop_user : json -> option json.
Variable prop_first_name : json -> js_value.
Variable prop_field : json -> string -> field_value.

(** Requests are posted through the [api] instance of utils/api.js, whose
    refresh goes through [fetch]; the credentials travel in the body, which
    the interceptors never look at. *)
Definition login_request : request_config :=
  {| url := "/auth/login/"; method := "post"; Authorization := None; _retry := false |}.

Definition register_request : request_config :=
  {| url := "/auth/register/"; method := "post"; Authorization := None; _retry := false |}.

(** What [authAPI.login] and [authAPI.register] settle with. *)
Inductive auth_call : Type :=
| AuthResolved (user : option json) (access refresh : js_value)
| AuthRejected (error : @failure json).

(** The common body of [authAPI.register] and [authAPI.login]:
    [const { access, refresh, user } = response.data; setTokens(access, refresh)]. *)
Definition authAPI_post (request : request_config) (fuel : nat) (w : world)
    : option (world * auth_call) :=
  match api backend refresh_endpoint ViaFetch fuel w request with
  | Some (w, Resolved _ data _) =>
      let access := prop_access data in
      let refresh := prop_refresh data in
      let user := prop_user data in
      Some (setTokens access refresh w, AuthResolved user access refresh)
  | Some (w, Rejected error) => Some (w, AuthRejected error)
  | None => None
  end.

Definition authAPI_register : nat -> world -> option (world * auth_call) :=
  authAPI_post register_request.

Definition authAPI_login : nat -> world -> option (world * auth_call) :=
  authAPI_post login_request.

Definition authAPI_logout (w : world) : world := clearTokens w.

(** The state of [AuthProvider] together with the toasts shown so far. *)
Record provider : Type := {
  auth : @auth_state json;
  toasts : list toast;
}.

(** What [login] and [register] return: [{ success, error, errors }]. *)
Record attempt : Type := {
  success : bool;
  error : option field_value;
  errors : option json;
}.

(** [error?.response?.data] *)
Definition error_data (e : @failure json) : option json :=
  match e with
  | AxiosError _ (Some (_, data)) => Some data
  | AxiosError _ None => None
  | RefreshError => None
  end.

(** [data?.[key]] *)
Definition optional_field (data : option json) (key : string) : field_value :=
  match data with
  | Some d => prop_field d key
  | None => FieldUndefined
  end.

Definition login_message (data : option json) : field_value :=
  field_or
    (field_or (optional_field data "message")
              (field_first (optional_field data "non_field_errors")))
    (FieldString "Login failed. Please check your credentials.").

Definition register_message (errors : option json) : field_value :=
  match errors with
  | Some errs =>
      if field_truthy (prop_field errs "email")
      then first_if_array (prop_field errs "email")
      else if field_truthy (prop_field errs "password")
      then first_if_array (prop_field errs "password")
      else if field_truthy (prop_field errs "password_confirm")
      then first_if_array (prop_field errs "password_confirm")
      else if field_truthy (prop_field errs "non_field_errors")
      then first_if_array (prop_field errs "non_field_errors")
      else FieldString "Registration failed. Please try again."
  | None => FieldString "Registration failed. Please try again."
  end.

Definition failed (user : option json) (message : field_value) (errors : option json)
    (p : provider) : provider * attempt :=
  ({| auth := {| user := user; isLoading := false |};
      toasts := toasts p ++ [ToastError message] |},
   {| success := false; error := Some message; errors := errors |}).

Definition welcomed (u : json) (greeting : string) (p : provider) : provider * attempt :=
  ({| auth := {| user := Some u; isLoading := false |};
      toasts := toasts p
                ++ [ToastSuccess (greeting +:+ to_string (prop_first_name u) +:+ "!")] |},
   {| success := true; error := None; errors := None |}).

(** [login] of the auth context.  When the reply carries no user,
    [setUser(user)] has already run when reading [user.first_name] throws a
    TypeError, which has no [response]. *)
Definition login (fuel : nat) (w : world) (p : provider)
    : option (world * (provider * attempt)) :=
  match authAPI_login fuel w with
  | Some (w, AuthResolved (Some u) _ _) => Some (w, welcomed u "Welcome back, " p)
  | Some (w, AuthResolved None _ _) =>
      Some (w, failed None (login_message None) None p)
  | Some (w, AuthRejected e) =>
      Some (w, failed (user (auth p)) (login_message (error_data e)) None p)
  | None => None
  end.

(** [register] of the auth context. *)
Definition register (fuel : nat) (w : world) (p : provider)
    : option (world * (provider * attempt)) :=
  match authAPI_register fuel w with
  | Some (w, AuthResolved (Some u) _ _) =>
      Some (w, welcomed u "Welcome to Event Tracker, " p)
  | Some (w, AuthResolved None _ _) =>
      Some (w, failed None (register_message None) None p)
  | Some (w, AuthRejected e) =>
      Some (w, failed (user (auth p)) (register_message (error_data e)) (error_data e) p)
  | None => None
  end.

(** [logout] of the auth context. *)
Definition logout (w : world) (p : provider) : world * provider :=
  (authAPI_logout w,
   {| auth := {| user := None; isLoading := isLoading (auth p) |};
      toasts := toasts p ++ [ToastSuccess "Logged out successfully"] |}).

(** [updateUser] of the auth context. *)
Definition updateUser (userData : option json) (p : provider) : provider :=
  {| auth := {| user := userData; isLoading := isLoading (auth p) |};
     toasts := toasts p |}.

(** ** App.jsx: the route guards *)

Inductive rendered : Type :=
| LoadingSpinner
| Navigate (to : string)
| Children.

Definition ProtectedRoute (s : @auth_state json) : rendered :=
  if isLoading s then LoadingSpinner
  else if negb (context_isAuthenticated s) then Navigate "/login"
  else Children.

Definition PublicRoute (s : @auth_state json) : rendered :=
  if isLoading s then LoadingSpinner
  else if context_isAuthenticated s then Navigate "/dashboard"
  else Children.

End AuthFlows.

(* ===================================================================== *)
(** * components/Tutorial.jsx and its use in App.jsx                      *)
(* ===================================================================== *)

Module Tutorial.

(** A step of the tour.  [target] is the value of the [data-tutorial]
    attribute that the step's selector looks for, [None] for a step without
    target; the display texts are left out. *)
Record step : Type := {
  id : string;
  target : option string;
  position : string;
}.

Definition tutorialSteps : list step :=
  [ {| id := "welcome"; target := None; position := "center" |};
    {| id := "dashboard"; target := Some "dashboard-stats"; position := "bottom" |};
    {| id := "create-event"; target := Some "create-event-btn"; position := "bottom" |};
    {| id := "navigation"; target := Some "navigation"; position := "bottom" |};
    {| id := "events-list"; target := Some "events-nav"; position := "bottom" |};
    {| id := "complete"; target := None; position := "center" |} ].

(** [currentStep] of the component and [showTutorial] of [AppContent],
    which the component receives as [isOpen] and clears through
    [onClose]. *)
Record state : Type := {
  currentStep : Z;
  showTutorial : bool;
}.

(** [useState(0)], [useState(false)] *)
Definition initial : state := {| currentStep := 0; showTutorial := false |}.

Definition onClose (s : state) : state :=
  {| currentStep := currentStep s; showTutorial := false |}.

(** [tutorialSteps[currentStep]] *)
Definition current (s : state) : option step :=
  if currentStep s <? 0 then None else tutorialSteps !! Z.to_nat (currentStep s).

Definition isLastStep (s : state) : bool :=
  currentStep s =? Z.of_nat (length tutorialSteps) - 1.

Definition isFirstStep (s : state) : bool := currentStep s =? 0.

Definition closeTutorial (w : world) (s : state) : world * state :=
  (setItem "tutorial-completed" (JSString "true") w, onClose s).

Definition skipTutorial (w : world) (s : state) : world * state :=
  (setItem "tutorial-skipped" (JSString "true") w, onClose s).

Definition nextStep (w : world) (s : state) : world * state :=
  if currentStep s <? Z.of_nat (length tutorialSteps) - 1
  then (w, {| currentStep := currentStep s + 1; showTutorial := showTutorial s |})
  else closeTutorial w s.

Definition prevStep (w : world) (s : state) : world * state :=
  if 0 <? currentStep s
  then (w, {| currentStep := currentStep s - 1; showTutorial := showTutorial s |})
  else (w, s).


(** [setShowTutorial(true)], from the timeout or from [TutorialButton]. *)
Definition open (s : state) : state :=
  {| currentStep := currentStep s; showTutorial := true |}.

(** What the user can click.  While the tour is closed the component
    renders nothing; [Skip Tour] is rendered on the first step only and
    [Back] on every other step. *)
Inductive click : Type :=
| ClickNext
| ClickBack
| ClickSkip
| ClickClose
| ClickTutorialButton.

Definition handle (c : click) (ws : world * state) : world * state :=
  let '(w, s) := ws in
  match c with
  | ClickTutorialButton => (w, open s)
  | ClickNext => if showTutorial s then nextStep w s else (w, s)
  | ClickBack =>
      if showTutorial s && negb (isFirstStep s) then prevStep w s else (w, s)
  | ClickSkip =>
      if showTutorial s && isFirstStep s then skipTutorial w s else (w, s)
  | ClickClose => if showTutorial s then closeTutorial w s else (w, s)
  end.

Definition run (clicks : list click) (ws : world * state) : world * state :=
  fold_left (fun ws c => handle c ws) clicks ws.

End Tutorial.

(* ===================================================================== *)
(** * contexts/QueryProvider.jsx                                          *)
(* ===================================================================== *)

Module QueryProvider.

(** [retryDelay]: [Math.min(1000 * 2 ** attemptIndex, 30000)].  For the
    failure counts React Query passes (integers from 0) the doubles are
    exact until the power overflows to [Infinity], where the minimum is
    30000 as it is here. *)
Definition retryDelay (attemptIndex : Z) : Z :=
  Z.min (1000 * 2 ^ attemptIndex) 30000.

End QueryProvider.

(* ===================================================================== *)
(** * pages/CreateEventPage.jsx: validateForm                             *)
(* ===================================================================== *)

(** White space as [String.prototype.trim] and the class [\s] see it, for
    code units below 256: tab, line feed, vertical tab, form feed, carriage
    return, space and no-break space. *)
Definition is_white_space (c : Ascii.ascii) : bool :=
  let n := Ascii.N_of_ascii c in
  (((9 <=? n) && (n <=? 13)) || (n =? 32) || (n =? 160))%N.

Fixpoint trimStart (s : string) : string :=
  match s with
  | EmptyString => EmptyString
  | String c rest => if is_white_space c then trimStart rest else s
  end.

Fixpoint trimEnd (s : string) : string :=
  match s with
  | EmptyString => EmptyString
  | String c rest =>
      match trimEnd rest with
      | EmptyString => if is_white_space c then EmptyString else String c EmptyString
      | kept => String c kept
      end
  end.

(** [s.trim()] *)
Definition trim (s : string) : string := trimEnd (trimStart s).

Module CreateEventPage.

Record formData : Type := {
  title : string;
  date_time : string;
  location : string;
  description : string;
}.

(** The [errors] object: a key is absent when its field is [None]. *)
Record errors : Type := {
  title_error : option string;
  date_time_error : option string;
  location_error : option string;
}.

(** [Object.keys(newErrors).length === 0] *)
Definition no_errors (e : errors) : bool :=
  match title_error e, date_time_error e, location_error e with
  | None, None, None => true
  | _, _, _ => false
  end.

Section Validate.

(** [new Date(string)] and the time of [new Date()], as on the events
    page. *)
Variable parse_date : string -> EventsPage.time_value.
Variable now : Z.

(** [eventDate <= now] on two dates: false when either is invalid. *)
Definition not_after (date other : EventsPage.time_value) : bool :=
  match date, other with
  | Some d, Some o => d <=? o
  | _, _ => false
  end.

Definition validate_title (f : formData) : option string :=
  if String.eqb (trim (title f)) "" then Some "Event title is required"
  else if (String.length (trim (title f)) <? 3)%nat
  then Some "Title must be at least 3 characters"
  else None.

Definition validate_date_time (f : formData) : option string :=
  if String.eqb (date_time f) "" then Some "Date and time are required"
  else if not_after (parse_date (date_time f)) (Some now)
  then Some "Event must be scheduled for the future"
  else None.

Definition validate_location (f : formData) : option string :=
  if String.eqb (trim (location f)) "" then Some "Location is required"
  else if (String.length (trim (location f)) <? 5)%nat
  then Some "Location must be at least 5 characters"
  else None.

(** [validateForm]: the new [errors] state and the value returned. *)
Definition validateForm (f : formData) : errors * bool :=
  let newErrors :=
    {| title_error := validate_title f;
       date_time_error := validate_date_time f;
       location_error := validate_location f |} in
  (newErrors, no_errors newErrors).

End Validate.

End CreateEventPage.

(* ===================================================================== *)
(** * pages/EventsPage.jsx: the status badge                              *)
(* ===================================================================== *)

Module EventsPageBadge.

Section Status.

Variable parse_date : string -> EventsPage.time_value.
Variable now : Z.

(** [getEventStatus(eventDate)] *)
Definition getEventStatus (eventDate : string) : string :=
  let event := parse_date eventDate in
  if EventsPage.isAfter event (Some now) then "upcoming" else "past".

End Status.

End EventsPageBadge.

(* ===================================================================== *)
(** * The page script of the server-rendered templates: getCookie         *)
(* ===================================================================== *)

Module PageScript.

(** The character [;]. *)
Definition semicolon : Ascii.ascii := Ascii.ascii_of_nat 59.

(** [s.split(sep)] for a separator of one character. *)
Fixpoint split (sep : Ascii.ascii) (s : string) : list string :=
  match s with
  | EmptyString => [EmptyString]
  | String c rest =>
      if Ascii.eqb c sep then EmptyString :: split sep rest
      else match split sep rest with
           | [] => [String c EmptyString]
           | piece :: pieces => String c piece :: pieces
           end
  end.

(** [s.substring(n)] *)
Fixpoint substring_from (n : nat) (s : string) : string :=
  match n, s with
  | O, _ => s
  | S n', EmptyString => EmptyString
  | S n', String _ rest => substring_from n' rest
  end.

(** The value [getCookie] returns, or the URIError that
    [decodeURIComponent] threw. *)
Inductive cookie_result : Type :=
| Returned (cookieValue : option string)
| Threw.

Section GetCookie.

(** [decodeURIComponent], [None] when it throws a URIError. *)
Variable decodeURIComponent : string -> option string.

(** The [for] loop over [cookies], from index [i] on. *)
Fixpoint scan (name : string) (cookies : list string) : cookie_result :=
  match cookies with
  | [] => Returned None
  | c :: rest =>
      let cookie := trim c in
      if String.eqb (String.substring 0 (String.length name + 1) cookie) (name +:+ "=")
      then match decodeURIComponent (substring_from (String.length name + 1) cookie) with
           | Some cookieValue => Returned (Some cookieValue)
           | None => Threw
           end
      else scan name rest
  end.

(** [getCookie(name)], with [document.cookie] as second argument. *)
Definition getCookie (name : string) (document_cookie : string) : cookie_result :=
  if String.eqb document_cookie "" then Returned None
  else scan name (split semicolon document_cookie).

End GetCookie.

(** The cookie string a browser builds from its jar: [name=value] pairs
    joined by a semicolon and a space. *)
Definition pair_string (p : string * string) : string := p.1 +:+ "=" +:+ p.2.

Fixpoint cookie_string (jar : list (string * string)) : string :=
  match jar with
  | [] => EmptyString
  | [p] => pair_string p
  | p :: rest => pair_string p +:+ "; " +:+ cookie_string rest
  end.

(** A pair as a browser stores it: no semicolon in it, no equals sign in
    the name, and no white space at either end. *)
Definition well_formed_pair (p : string * string) : Prop :=
  includes (pair_string p) ";" = false /\
  includes p.1 "=" = false /\
  trim (pair_string p) = pair_string p.

(** What a decoder makes of the value found for a cookie, if any: the
    decoded value, a throw when it does not decode, [null] when there is
    none. *)
Definition decoded (decode : string -> option string) (value : option string)
    : cookie_result :=
  match value with
  | Some v =>
      match decode v with
      | Some cookieValue => Returned (Some cookieValue)
      | None => Threw
      end
  | None => Returned None
  end.

(** The value of the first pair of the jar named [name]. *)
Fixpoint first_value (name : string) (jar : list (string * string)) : option string :=
  match jar with
  | [] => None
  | p :: rest => if String.eqb p.1 name then Some p.2 else first_value name rest
  end.

End PageScript.

(* ===================================================================== *)
(** * pages/LoginPage.jsx: validateForm                                   *)
(* ===================================================================== *)

Module LoginPage.

(** Regular expressions without groups or anchors, which is all the
    pattern of the page uses. *)
Inductive regex : Type :=
| Never
| Empty
| Class (p : Ascii.ascii -> bool)
| Then (r1 r2 : regex)
| Or (r1 r2 : regex)
| Many (r : regex).

(** [r+] *)
Definition OneOrMore (r : regex) : regex := Then r (Many r).

Fixpoint nullable (r : regex) : bool :=
  match r with
  | Never => false
  | Empty => true
  | Class _ => false
  | Then r1 r2 => nullable r1 && nullable r2
  | Or r1 r2 => nullable r1 || nullable r2
  | Many _ => true
  end.

(** What is left of [r] to match after the character [c]. *)
Fixpoint derivative (c : Ascii.ascii) (r : regex) : regex :=
  match r with
  | Never => Never
  | Empty => Never
  | Class p => if p c then Empty else Never
  | Then r1 r2 =>
      if nullable r1
      then Or (Then (derivative c r1) r2) (derivative c r2)
      else Then (derivative c r1) r2
  | Or r1 r2 => Or (derivative c r1) (derivative c r2)
  | Many r1 => Then (derivative c r1) (Many r1)
  end.

(** The whole of [s] matches [r]. *)
Fixpoint matches (r : regex) (s : string) : bool :=
  match s with
  | EmptyString => nullable r
  | String c rest => matches (derivative c r) rest
  end.

Definition any_char (_ : Ascii.ascii) : bool := true.

(** [r.test(s)] for a pattern without anchors and flags: some part of [s]
    matches [r]. *)
Definition test (r : regex) (s : string) : bool :=
  matches (Then (Many (Class any_char)) (Then r (Many (Class any_char)))) s.

(** [\S] *)
Definition non_space (c : Ascii.ascii) : bool := negb (is_white_space c).

Definition at_sign : Ascii.ascii := Ascii.ascii_of_nat 64.
Definition dot : Ascii.ascii := Ascii.ascii_of_nat 46.

Definition is_char (ch c : Ascii.ascii) : bool := Ascii.eqb c ch.

(** [/\S+@\S+\.\S+/] *)
Definition email_pattern : regex :=
  Then (OneOrMore (Class non_space))
    (Then (Class (is_char at_sign))
       (Then (OneOrMore (Class non_space))
          (Then (Class (is_char dot))
             (OneOrMore (Class non_space))))).

Record formData : Type := {
  email : string;
  password : string;
}.

(** The [errors] object: a key is absent when its field is [None]. *)
Record errors : Type := {
  email_error : option string;
  password_error : option string;
}.

Definition validate_email (f : formData) : option string :=
  if String.eqb (trim (email f)) "" then Some "Email is required"
  else if negb (test email_pattern (email f))
  then Some "Please enter a valid email address"
  else None.

Definition validate_password (f : formData) : option string :=
  if String.eqb (password f) "" then Some "Password is required" else None.

(** [validateForm]: the new [errors] state and the value returned. *)
Definition validateForm (f : formData) : errors * bool :=
  let newErrors :=
    {| email_error := validate_email f; password_error := validate_password f |} in
  (newErrors,
   match email_error newErrors, password_error newErrors with
   | None, None => true
   | _, _ => false
   end).

(** The strings a regular expression stands for. *)
Inductive language : regex -> string -> Prop :=
| language_Empty : language Empty EmptyString
| language_Class p c : p c = true -> language (Class p) (String c EmptyString)
| language_Then r1 r2 s1 s2 :
    language r1 s1 -> language r2 s2 -> language (Then r1 r2) (s1 +:+ s2)
| language_Or_l r1 r2 s : language r1 s -> language (Or r1 r2) s
| language_Or_r r1 r2 s : language r2 s -> language (Or r1 r2) s
| language_Many_nil r : language (Many r) EmptyString
| language_Many_more r s1 s2 :
    language r s1 -> language (Many r) s2 -> language (Many r) (s1 +:+ s2).

End LoginPage.

(* ===================================================================== *)
(** * More example servers, payloads and pages                            *)
(* ===================================================================== *)

Module Examples.

(** A backend that fails with status 500. *)
Definition server_error (_ : list net_event) (_ : request_config) : @http_reply string :=
  Reply 500 "internal error".

(** A refresh endpoint that cannot be reached. *)
Definition refresh_unreachable (_ : list net_event) (_ : string) : refresh_reply :=
  RefreshNoReply.

(** Payloads of the auth endpoints: a token reply with the first name of
    the user it carries, if any; a user object; an error object with its
    [message]. *)
Inductive data : Type :=
| TokenReply (access refresh : string) (first_name : option string)
| UserObject (first_name : string)
| ErrorReply (message : field_value).

Definition prop_access (d : data) : js_value :=
  match d with TokenReply access _ _ => JSString access | _ => JSUndefined end.

Definition prop_refresh (d : data) : js_value :=
  match d with TokenReply _ refresh _ => JSString refresh | _ => JSUndefined end.

Definition prop_user (d : data) : option data :=
  match d with TokenReply _ _ (Some name) => Some (UserObject name) | _ => None end.

Definition prop_first_name (d : data) : js_value :=
  match d with UserObject name => JSString name | _ => JSUndefined end.

Definition prop_field (d : data) (key : string) : field_value :=
  match d with
  | ErrorReply message => if String.eqb key "message" then message else FieldUndefined
  | _ => FieldUndefined
  end.

Definition accepts_credentials (_ : list net_event) (_ : request_config)
    : @http_reply data :=
  Reply 200 (TokenReply "access-1" "refresh-1" (Some "Ada")).

Definition forgets_user (_ : list net_event) (_ : request_config) : @http_reply data :=
  Reply 200 (TokenReply "access-1" "refresh-1" None).

Definition rejects_credentials (_ : list net_event) (_ : request_config)
    : @http_reply data :=
  Reply 400 (ErrorReply (FieldString "Invalid email or password")).

Definition signed_out : @provider data :=
  {| auth := {| user := None; isLoading := false |}; toasts := [] |}.

(** An event form filled in for the one date the example runtime parses,
    seen one second earlier. *)
Definition standup_form : CreateEventPage.formData :=
  {| CreateEventPage.title := "Standup";
     CreateEventPage.date_time := "2025-09-16T10:00:00.000Z";
     CreateEventPage.location := "Room 1";
     CreateEventPage.description := "" |}.

Definition one_second_earlier : Z := 1758016799000.

(** A cookie jar, and a decoder that leaves its argument as it is. *)
Definition jar : list (string * string) :=
  [("sessionid", "abc123"); ("csrftoken", "t0k3n"); ("theme", "dark")].

Definition no_escapes (s : string) : option string := Some s.

End Examples.

(* ===================================================================== *)
(** * Token storage facts                                                 *)
(* ===================================================================== *)

Lemma token_keys_differ : TOKEN_KEY <> REFRESH_TOKEN_KEY.
Proof. discriminate. Qed.

Lemma getAccessToken_setTokens a r w :
  getAccessToken (setTokens a r w) = Some (to_string a).
Proof.
  unfold getAccessToken, setTokens, getItem, setItem; simpl.
  rewrite lookup_insert_ne by (symmetry; apply token_keys_differ).
  apply lookup_insert_eq.
Qed.

Lemma getRefreshToken_setTokens a r w :
  getRefreshToken (setTokens a r w) = Some (to_string r).
Proof.
  unfold getRefreshToken, setTokens, getItem, setItem; simpl.
  apply lookup_insert_eq.
Qed.

Lemma getAccessToken_clearTokens w : getAccessToken (clearTokens w) = None.
Proof.
  unfold getAccessToken, clearTokens, getItem, removeItem; simpl.
  rewrite lookup_delete_ne by (symmetry; apply token_keys_differ).
  apply lookup_delete_eq.
Qed.

Lemma getRefreshToken_clearTokens w : getRefreshToken (clearTokens w) = None.
Proof.
  unfold getRefreshToken, clearTokens, getItem, removeItem; simpl.
  apply lookup_delete_eq.
Qed.

(** [setTokens] touches the two token slots only, and re-storing the value
    a slot already holds leaves that slot as it was. *)
Lemma setTokens_frame a rt w k :
  k <> TOKEN_KEY -> getRefreshToken w = Some rt ->
  localStorage (setTokens a (JSString rt) w) !! k = localStorage w !! k.
Proof.
  intros Hk Hrt. unfold setTokens, setItem; simpl.
  destruct (decide (k = REFRESH_TOKEN_KEY)) as [->|Hne].
  - rewrite lookup_insert_eq. symmetry. exact Hrt.
  - rewrite !lookup_insert_ne by congruence. reflexivity.
Qed.

Lemma setTokens_paired a r w : tokens_paired (setTokens a r w).
Proof.
  unfold tokens_paired.
  rewrite getAccessToken_setTokens, getRefreshToken_setTokens.
  split; intros _; eexists; reflexivity.
Qed.

Lemma clearTokens_paired w : tokens_paired (clearTokens w).
Proof.
  unfold tokens_paired.
  rewrite getAccessToken_clearTokens, getRefreshToken_clearTokens.
  split; intros [? ?]; discriminate.
Qed.

Lemma if_truthy_yes {A} (s : string) (yes : string -> A) (no : A) :
  s <> "" -> if_truthy (Some s) yes no = yes s.
Proof.
  intros Hs. unfold if_truthy.
  destruct (String.eqb_spec s ""); [contradiction | reflexivity].
Qed.

Lemma truthy_Some s : truthy (Some s) = true <-> s <> "".
Proof.
  unfold truthy. destruct (String.eqb_spec s ""); simpl; split; congruence.
Qed.

Lemma truthy_inv v : truthy v = true -> exists s, v = Some s /\ s <> "".
Proof.
  destruct v as [s|]; [|discriminate].
  intros H. exists s. split; [reflexivity | by apply truthy_Some].
Qed.

Lemma if_truthy_no {A} v (yes : string -> A) (no : A) :
  truthy v = false -> if_truthy v yes no = no.
Proof.
  destruct v as [s|]; simpl; [|reflexivity].
  destruct (String.eqb s ""); simpl; [reflexivity | discriminate].
Qed.

Lemma validateStatus_401 : validateStatus 401 = false.
Proof. reflexivity. Qed.

Lemma refresh_succeeds_access t r access :
  refresh_succeeds r access -> request_access t r = Refreshed (JSString access).
Proof.
  intros (status & Hst & ->). destruct t; simpl; [reflexivity|].
  rewrite Hst. reflexivity.
Qed.

Lemma refresh_fails_axios r :
  refresh_fails r -> request_access ViaAxiosPost r = RefreshThrew.
Proof.
  destruct r as [|status body]; simpl; [reflexivity|].
  intros ->. reflexivity.
Qed.

(* ===================================================================== *)
(** * The interceptors                                                    *)
(* ===================================================================== *)

Section ClientFacts.

Context {json : Type}.
Variable backend : list net_event -> request_config -> @http_reply json.
Variable refresh_endpoint : list net_event -> string -> refresh_reply.
Variable transport : refresh_transport.

Local Abbreviation call_api := (api backend refresh_endpoint transport) (only parsing).
Local Abbreviation handle_rejection := (on_rejected refresh_endpoint transport) (only parsing).

Lemma request_interceptor_retry w config :
  _retry (request_interceptor w config) = _retry config.
Proof.
  unfold request_interceptor, if_truthy.
  destruct (getAccessToken w) as [s|]; [|reflexivity].
  destruct (String.eqb s ""); reflexivity.
Qed.

(** The interceptor leaves a header alone when it already carries the
    stored token, and also when nothing truthy is stored. *)
Lemma request_interceptor_after_setTokens access rt w config :
  request_interceptor (setTokens access rt w)
    (with_Authorization ("Bearer " +:+ to_string access) config)
  = with_Authorization ("Bearer " +:+ to_string access) config.
Proof.
  unfold request_interceptor. rewrite getAccessToken_setTokens.
  unfold if_truthy. destruct (String.eqb (to_string access) ""); reflexivity.
Qed.

(** A request already marked [_retry] is dispatched once and settles as
    the adapter settles it: the rejection handler does nothing. *)
Lemma api_marked fuel w config :
  _retry config = true ->
  call_api (S fuel) w config =
    Some (record_event (Sent (request_interceptor w config)) w,
          settle (request_interceptor w config)
                 (backend (network_log w) (request_interceptor w config))).
Proof.
  intros Hr. simpl.
  destruct (backend _ _) as [status data|]; simpl.
  - destruct (validateStatus status); [reflexivity|].
    unfold on_rejected.
    rewrite request_interceptor_retry, Hr, andb_false_r. reflexivity.
  - reflexivity.
Qed.

(** A rejection that is not a 401 is passed on untouched. *)
Lemma api_other_failure fuel w config :
  status_is_401
    (match backend (network_log w) (request_interceptor w config) with
     | Reply status data => Some (status, data)
     | NoReply => None
     end) = false ->
  call_api (S fuel) w config =
    Some (record_event (Sent (request_interceptor w config)) w,
          settle (request_interceptor w config)
                 (backend (network_log w) (request_interceptor w config))).
Proof.
  intros H4. simpl.
  destruct (backend _ _) as [status data|]; simpl in *.
  - destruct (validateStatus status); [reflexivity|].
    unfold on_rejected. simpl. rewrite H4. reflexivity.
  - reflexivity.
Qed.

(** The refresh cycle: a fresh request answered by 401 while a truthy
    refresh token is stored. *)
Lemma api_refresh_cycle fuel w config rt d :
  _retry config = false ->
  getRefreshToken w = Some rt -> rt <> "" ->
  backend (network_log w) (request_interceptor w config) = Reply 401 d ->
  call_api (S (S fuel)) w config =
    let sent := request_interceptor w config in
    let w1 := record_event (RefreshPosted rt) (record_event (Sent sent) w) in
    match request_access transport
            (refresh_endpoint (network_log w ++ [Sent sent])%list rt) with
    | Refreshed access =>
        let retry := with_Authorization ("Bearer " +:+ to_string access)
                                        (with_retry sent) in
        let w2 := setTokens access (JSString rt) w1 in
        Some (record_event (Sent retry) w2,
              settle retry (backend (network_log w2) retry))
    | RefreshThrew =>
        Some (set_location_href "/login" (clearTokens w1), Rejected RefreshError)
    end.
Proof.
  intros Hr Hrt Hne Hb.
  change (call_api (S (S fuel)) w config) with
    (let config' := request_interceptor w config in
     let reply := backend (network_log w) config' in
     let w' := record_event (Sent config') w in
     match reply with
     | Reply status data =>
         if validateStatus status
         then Some (w', Resolved status data config')
         else handle_rejection (call_api (S fuel)) w' config' (Some (status, data))
     | NoReply => handle_rejection (call_api (S fuel)) w' config' None
     end).
  cbv zeta. rewrite Hb, validateStatus_401.
  unfold on_rejected.
  rewrite request_interceptor_retry, Hr.
  change (status_is_401 (Some (401, d)) && negb false) with true. cbv iota.
  change (getRefreshToken (record_event (Sent (request_interceptor w config)) w))
    with (getRefreshToken w).
  rewrite Hrt, if_truthy_yes by exact Hne.
  change (network_log (record_event (Sent (request_interceptor w config)) w))
    with (network_log w ++ [Sent (request_interceptor w config)])%list.
  destruct (request_access transport _) as [access|]; [|reflexivity].
  rewrite api_marked by reflexivity.
  rewrite request_interceptor_after_setTokens. reflexivity.
Qed.

(** Without a truthy refresh token the 401 ends the session at once. *)
Lemma api_no_refresh_token fuel w config d :
  _retry config = false ->
  truthy (getRefreshToken w) = false ->
  backend (network_log w) (request_interceptor w config) = Reply 401 d ->
  call_api (S fuel) w config =
    let sent := request_interceptor w config in
    Some (set_location_href "/login" (clearTokens (record_event (Sent sent) w)),
          Rejected (AxiosError (with_retry sent) (Some (401, d)))).
Proof.
  intros Hr Hrt Hb. simpl. rewrite Hb, validateStatus_401.
  unfold on_rejected.
  rewrite request_interceptor_retry, Hr.
  change (status_is_401 (Some (401, d)) && negb false) with true. cbv iota.
  change (getRefreshToken (record_event (Sent (request_interceptor w config)) w))
    with (getRefreshToken w).
  rewrite if_truthy_no by exact Hrt. reflexivity.
Qed.

End ClientFacts.

(* ===================================================================== *)
(** * Counting network events                                             *)
(* ===================================================================== *)

Lemma refresh_attempts_app l1 l2 :
  refresh_attempts (l1 ++ l2) = (refresh_attempts l1 + refresh_attempts l2)%nat.
Proof. unfold refresh_attempts. by rewrite List.filter_app, length_app. Qed.

Lemma dispatches_app l1 l2 :
  dispatches (l1 ++ l2) = (dispatches l1 + dispatches l2)%nat.
Proof. unfold dispatches. by rewrite List.filter_app, length_app. Qed.

(* ===================================================================== *)
(** * The refresh protocol of the session manager                         *)
(* ===================================================================== *)

Section SessionManager.

Context {json : Type}.
Variable backend : list net_event -> request_config -> @http_reply json.
Variable refresh_endpoint : list net_event -> string -> refresh_reply.
Variable transport : refresh_transport.

Local Abbreviation call_api := (api backend refresh_endpoint transport) (only parsing).
Local Abbreviation run_initAuth := (initAuth backend refresh_endpoint transport) (only parsing).
Local Abbreviation call_getProfile := (getProfile backend refresh_endpoint transport) (only parsing).

(** Two units of fuel are enough for every request, and the request is
    always dispatched first. *)
Lemma api_total fuel w config :
  (2 <= fuel)%nat ->
  exists w' out rest,
    call_api fuel w config = Some (w', out) /\
    network_log w' =
      (network_log w ++ Sent (request_interceptor w config) :: rest)%list.
Proof.
  intros Hfuel.
  destruct fuel as [|[|fuel]]; [lia | lia | clear Hfuel].
  destruct (_retry config) eqn:Hretry.
  { rewrite api_marked by exact Hretry. eexists _, _, []. split; reflexivity. }
  destruct (status_is_401
      (match backend (network_log w) (request_interceptor w config) with
       | Reply status data => Some (status, data)
       | NoReply => None
       end)) eqn:H401.
  2:{ rewrite api_other_failure by exact H401.
      eexists _, _, []. split; reflexivity. }
  destruct (backend (network_log w) (request_interceptor w config))
    as [status d|] eqn:Hb; [|discriminate].
  simpl in H401. apply Z.eqb_eq in H401. subst status.
  destruct (truthy (getRefreshToken w)) eqn:Htruthy.
  - apply truthy_inv in Htruthy as (rt & Hrt & Hne).
    rewrite (api_refresh_cycle _ _ _ fuel w config rt d Hretry Hrt Hne Hb).
    cbv zeta.
    destruct (request_access transport _) as [access|].
    + eexists _, _, [_; _]. split; [reflexivity|]. simpl.
      rewrite <- !app_assoc. reflexivity.
    + eexists _, _, [_]. split; [reflexivity|]. simpl.
      rewrite <- !app_assoc. reflexivity.
  - rewrite (api_no_refresh_token _ _ _ _ w config d Hretry Htruthy Hb).
    eexists _, _, []. split; reflexivity.
Qed.


(** C2 -- A fresh request that is answered by 401 while a refresh token is
    stored makes the session manager post exactly one refresh; the original
    request is dispatched again at most once, never before the refresh, and
    exactly once, with the new access token in its Authorization header,
    when the refresh succeeds.  The backend is arbitrary, so this also
    covers a backend that keeps rejecting the retried request. *)
Theorem one_refresh_and_at_most_one_retry fuel w config rt d :
  (2 <= fuel)%nat ->
  _retry config = false ->
  getRefreshToken w = Some rt -> rt <> "" ->
  backend (network_log w) (request_interceptor w config) = Reply 401 d ->
  exists w' out retries,
    call_api fuel w config = Some (w', out) /\
    network_log w' =
      (network_log w
         ++ [Sent (request_interceptor w config); RefreshPosted rt]
         ++ retries)%list /\
    refresh_attempts (network_log w') = S (refresh_attempts (network_log w)) /\
    dispatches (network_log w') =
      (dispatches (network_log w) + 1 + length retries)%nat /\
    (length retries <= 1)%nat /\
    (forall access,
       refresh_succeeds
         (refresh_endpoint (network_log w ++ [Sent (request_interceptor w config)]) rt)
         access ->
       retries =
         [Sent (with_Authorization ("Bearer " +:+ access)
                  (with_retry (request_interceptor w config)))]).
Proof.
  intros Hfuel Hretry Hrt Hne Hb.
  destruct fuel as [|[|fuel]]; [lia | lia | clear Hfuel].
  rewrite (api_refresh_cycle _ _ _ fuel w config rt d Hretry Hrt Hne Hb).
  cbv zeta.
  destruct (request_access transport _) as [access|] eqn:Hacc.
  - eexists _, _, [_]. split; [reflexivity|].
    split; [simpl; rewrite <- !app_assoc; reflexivity|].
    split; [simpl; rewrite !refresh_attempts_app; unfold refresh_attempts; simpl; lia|].
    split; [simpl; rewrite !dispatches_app; unfold dispatches; simpl; lia|].
    split; [simpl; lia|].
    intros access' Hok.
    rewrite (refresh_succeeds_access transport _ _ Hok) in Hacc.
    injection Hacc as <-. reflexivity.
  - eexists _, _, []. split; [reflexivity|].
    split; [simpl; rewrite <- !app_assoc; reflexivity|].
    split; [simpl; rewrite !refresh_attempts_app; unfold refresh_attempts; simpl; lia|].
    split; [simpl; rewrite !dispatches_app; unfold dispatches; simpl; lia|].
    split; [simpl; lia|].
    intros access' Hok.
    rewrite (refresh_succeeds_access transport _ _ Hok) in Hacc. discriminate.
Qed.

(** C7 -- When the refresh succeeds, the stored access token is the newly
    issued one, and the suspended request is dispatched once more, after
    the refresh was posted, marked as retried and carrying exactly
    [Bearer <new access token>]. *)
Theorem successful_refresh_replaces_token_and_retries fuel w config rt d access :
  (2 <= fuel)%nat ->
  _retry config = false ->
  getRefreshToken w = Some rt -> rt <> "" ->
  backend (network_log w) (request_interceptor w config) = Reply 401 d ->
  refresh_succeeds
    (refresh_endpoint (network_log w ++ [Sent (request_interceptor w config)]) rt)
    access ->
  exists w' out retry,
    call_api fuel w config = Some (w', out) /\
    getAccessToken w' = Some access /\
    network_log w' =
      (network_log w
         ++ [Sent (request_interceptor w config); RefreshPosted rt; Sent retry])%list /\
    Authorization retry = Some ("Bearer " +:+ access) /\
    _retry retry = true /\
    url retry = url config /\
    method retry = method config /\
    out = settle retry
            (backend (network_log w
                        ++ [Sent (request_interceptor w config); RefreshPosted rt])
                     retry).
Proof.
  intros Hfuel Hretry Hrt Hne Hb Hok.
  destruct fuel as [|[|fuel]]; [lia | lia | clear Hfuel].
  rewrite (api_refresh_cycle _ _ _ fuel w config rt d Hretry Hrt Hne Hb).
  cbv zeta. rewrite (refresh_succeeds_access transport _ _ Hok).
  eexists _, _, _. split; [reflexivity|].
  split; [apply getAccessToken_setTokens|].
  split; [simpl; rewrite <- !app_assoc; reflexivity|].
  split; [reflexivity|]. split; [reflexivity|].
  unfold request_interceptor, if_truthy.
  destruct (getAccessToken w) as [s|]; [destruct (String.eqb s "")|];
    (split; [reflexivity|]); (split; [reflexivity|]);
    simpl; rewrite <- !app_assoc; reflexivity.
Qed.

(** C9 -- In a refresh cycle the refresh token slot is written back with
    the value read before the refresh: whenever the refresh call returns,
    the stored refresh token is the one that was stored before, the access
    token slot holds the new token and no other key of the storage has
    changed.  In no case does the cycle leave a different refresh token
    behind. *)
Theorem refresh_never_rotates_refresh_token fuel w config rt d :
  (2 <= fuel)%nat ->
  _retry config = false ->
  getRefreshToken w = Some rt -> rt <> "" ->
  backend (network_log w) (request_interceptor w config) = Reply 401 d ->
  exists w' out,
    call_api fuel w config = Some (w', out) /\
    (forall access,
       request_access transport
         (refresh_endpoint (network_log w ++ [Sent (request_interceptor w config)]) rt)
       = Refreshed access ->
       getRefreshToken w' = Some rt /\
       getAccessToken w' = Some (to_string access) /\
       forall k, k <> TOKEN_KEY -> localStorage w' !! k = localStorage w !! k) /\
    (getRefreshToken w' = Some rt \/ getRefreshToken w' = None).
Proof.
  intros Hfuel Hretry Hrt Hne Hb.
  destruct fuel as [|[|fuel]]; [lia | lia | clear Hfuel].
  rewrite (api_refresh_cycle _ _ _ fuel w config rt d Hretry Hrt Hne Hb).
  cbv zeta.
  destruct (request_access transport _) as [access|] eqn:Hacc.
  - eexists _, _. split; [reflexivity|]. split.
    + intros access' [= <-].
      split; [apply getRefreshToken_setTokens|].
      split; [apply getAccessToken_setTokens|].
      intros k Hk.
      change (localStorage (record_event ?e ?x)) with (localStorage x).
      rewrite setTokens_frame; [reflexivity | exact Hk | exact Hrt].
    + left. apply getRefreshToken_setTokens.
  - eexists _, _. split; [reflexivity|]. split.
    + intros access' [=].
    + right. apply getRefreshToken_clearTokens.
Qed.

(** The sibling copy of the module, which posts the refresh with axios,
    ends the session on every failed refresh: both tokens are removed, the
    browser is sent to the login page, the suspended request is rejected
    and is not dispatched again. *)
Lemma axios_refresh_failure_ends_session fuel w config rt d :
  (2 <= fuel)%nat ->
  _retry config = false ->
  getRefreshToken w = Some rt -> rt <> "" ->
  backend (network_log w) (request_interceptor w config) = Reply 401 d ->
  refresh_fails
    (refresh_endpoint (network_log w ++ [Sent (request_interceptor w config)]) rt) ->
  exists w',
    api backend refresh_endpoint ViaAxiosPost fuel w config
      = Some (w', Rejected RefreshError) /\
    getAccessToken w' = None /\
    getRefreshToken w' = None /\
    location_href w' = "/login" /\
    network_log w' =
      (network_log w ++ [Sent (request_interceptor w config); RefreshPosted rt])%list.
Proof.
  intros Hfuel Hretry Hrt Hne Hb Hfail.
  destruct fuel as [|[|fuel]]; [lia | lia | clear Hfuel].
  rewrite (api_refresh_cycle _ _ ViaAxiosPost fuel w config rt d Hretry Hrt Hne Hb).
  cbv zeta. rewrite (refresh_fails_axios _ Hfail).
  eexists. split; [reflexivity|].
  split; [apply getAccessToken_clearTokens|].
  split; [apply getRefreshToken_clearTokens|].
  split; [reflexivity|].
  simpl. rewrite <- !app_assoc. reflexivity.
Qed.

(** C8 -- [initAuth] starts from the unauthenticated state.  Without a
    stored access token, and so whenever the paired token slots hold no
    token pair, it sends nothing and the user stays unset.  With one it
    requests the profile; the user is set, to the profile received, exactly
    when that request settles successfully, and when it fails both stored
    tokens are removed and the user stays unset. *)
Theorem initAuth_resolves_stored_identity fuel w :
  (2 <= fuel)%nat ->
  context_isAuthenticated (@initial_auth_state json) = false /\
  exists w' s',
    run_initAuth fuel w initial_auth_state = Some (w', s') /\
    isLoading s' = false /\
    (isAuthenticated w = false -> w' = w /\ user s' = None) /\
    (tokens_paired w -> getRefreshToken w = None -> w' = w /\ user s' = None) /\
    (isAuthenticated w = true ->
       exists w1 out rest,
         call_getProfile fuel w = Some (w1, out) /\
         network_log w1 =
           (network_log w ++ Sent (request_interceptor w profile_request) :: rest)%list /\
         match out with
         | Resolved _ data _ =>
             w' = w1 /\ user s' = Some data /\ context_isAuthenticated s' = true
         | Rejected _ =>
             w' = clearTokens w1 /\ user s' = None /\
             context_isAuthenticated s' = false /\
             getAccessToken w' = None /\ getRefreshToken w' = None
         end).
Proof.
  intros Hfuel. split; [reflexivity|].
  assert (Hpair : tokens_paired w -> getRefreshToken w = None ->
                  isAuthenticated w = true -> False).
  { intros Hp Hr Ha. unfold isAuthenticated in Ha.
    apply truthy_inv in Ha as (t & Ht & _).
    destruct (proj1 Hp) as [r Hr']; [rewrite Ht; eexists; reflexivity|].
    congruence. }
  unfold initAuth.
  destruct (isAuthenticated w) eqn:Hauth.
  - destruct (api_total fuel w profile_request Hfuel) as (w1 & out & rest & Hapi & Hlog).
    unfold getProfile. rewrite Hapi.
    destruct out as [status data c|err].
    + eexists _, _. split; [reflexivity|]. split; [reflexivity|].
      split; [discriminate|].
      split; [intros Hp Hr; destruct (Hpair Hp Hr eq_refl)|]. intros _.
      exists w1, (Resolved status data c), rest. auto.
    + eexists _, _. split; [reflexivity|]. split; [reflexivity|].
      split; [discriminate|].
      split; [intros Hp Hr; destruct (Hpair Hp Hr eq_refl)|]. intros _.
      exists w1, (Rejected err), rest.
      split; [reflexivity|]. split; [exact Hlog|].
      split; [reflexivity|]. split; [reflexivity|]. split; [reflexivity|].
      split; [apply getAccessToken_clearTokens | apply getRefreshToken_clearTokens].
  - eexists _, _. split; [reflexivity|]. split; [reflexivity|].
    split; [auto|]. split; [auto | discriminate].
Qed.

End SessionManager.

(* ===================================================================== *)
(** * The refresh protocol on example sessions                            *)
(* ===================================================================== *)

Lemma stored_session_refresh_token :
  getRefreshToken Scenario.stored_session = Some "refresh-1".
Proof. apply (getRefreshToken_setTokens _ (JSString "refresh-1")). Qed.

Lemma stored_session_request :
  request_interceptor Scenario.stored_session Scenario.events_request
  = with_Authorization "Bearer old-access" Scenario.events_request.
Proof.
  unfold request_interceptor, Scenario.stored_session.
  rewrite getAccessToken_setTokens. reflexivity.
Qed.

(** C3 -- In utils/api.js the refresh is posted with [fetch], which also
    resolves when the backend answers 401, and the status of the reply is
    never looked at.  On the session below the backend rejects the refresh
    token, yet the interceptor stores the string [undefined] as access
    token, keeps the rejected refresh token, dispatches the request again
    with [Bearer undefined] and does not leave the page. *)
Theorem fetch_refresh_rejected_keeps_tokens :
  refresh_fails
    (Scenario.refresh_rejected
       [Sent (with_Authorization "Bearer old-access" Scenario.events_request)]
       "refresh-1") /\
  exists w' error,
    api Scenario.always_401 Scenario.refresh_rejected ViaFetch 2
      Scenario.stored_session Scenario.events_request
      = Some (w', Rejected error) /\
    error = AxiosError
              (with_Authorization "Bearer undefined"
                 (with_retry Scenario.events_request))
              (Some (401, "token_not_valid")) /\
    getAccessToken w' = Some "undefined" /\
    getRefreshToken w' = Some "refresh-1" /\
    location_href w' = "/events" /\
    network_log w' =
      [Sent (with_Authorization "Bearer old-access" Scenario.events_request);
       RefreshPosted "refresh-1";
       Sent (with_Authorization "Bearer undefined"
               (with_retry Scenario.events_request))].
Proof.
  split; [reflexivity|].
  rewrite (api_refresh_cycle Scenario.always_401 Scenario.refresh_rejected ViaFetch
             0 Scenario.stored_session Scenario.events_request
             "refresh-1" "token_not_valid");
    [ | reflexivity | exact stored_session_refresh_token | discriminate | reflexivity ].
  rewrite stored_session_request. cbv zeta.
  eexists _, _. split; [reflexivity|].
  split; [reflexivity|].
  split; [apply (getAccessToken_setTokens JSUndefined)|].
  split; [apply (getRefreshToken_setTokens _ (JSString "refresh-1"))|].
  split; reflexivity.
Qed.

(** On the same session the sibling copy removes both tokens. *)
Lemma axios_refresh_rejected_discards_tokens :
  exists w',
    api Scenario.always_401 Scenario.refresh_rejected ViaAxiosPost 2
      Scenario.stored_session Scenario.events_request
      = Some (w', Rejected RefreshError) /\
    getAccessToken w' = None /\
    getRefreshToken w' = None /\
    location_href w' = "/login".
Proof.
  destruct (axios_refresh_failure_ends_session
              Scenario.always_401 Scenario.refresh_rejected
              2 Scenario.stored_session Scenario.events_request
              "refresh-1" "token_not_valid")
    as (w' & Hapi & Ha & Hr & Hl & _);
    [ lia | reflexivity | exact stored_session_refresh_token | discriminate
    | reflexivity | reflexivity | ].
  exists w'. auto.
Qed.

Lemma one_refresh_and_at_most_one_retry_witness :
  exists w' out retries,
    api Scenario.always_401 Scenario.refresh_issues_new ViaFetch 2
      Scenario.stored_session Scenario.events_request = Some (w', out) /\
    network_log w' =
      (network_log Scenario.stored_session
         ++ [Sent (request_interceptor Scenario.stored_session Scenario.events_request);
             RefreshPosted "refresh-1"]
         ++ retries)%list /\
    refresh_attempts (network_log w')
      = S (refresh_attempts (network_log Scenario.stored_session)) /\
    dispatches (network_log w') =
      (dispatches (network_log Scenario.stored_session) + 1 + length retries)%nat /\
    (length retries <= 1)%nat /\
    (forall access,
       refresh_succeeds
         (Scenario.refresh_issues_new
            (network_log Scenario.stored_session
               ++ [Sent (request_interceptor Scenario.stored_session
                           Scenario.events_request)])
            "refresh-1")
         access ->
       retries =
         [Sent (with_Authorization ("Bearer " +:+ access)
                  (with_retry (request_interceptor Scenario.stored_session
                                 Scenario.events_request)))]).
Proof.
  apply (one_refresh_and_at_most_one_retry
           Scenario.always_401 Scenario.refresh_issues_new ViaFetch
           2 Scenario.stored_session Scenario.events_request
           "refresh-1" "token_not_valid").
  - lia.
  - reflexivity.
  - vm_compute. reflexivity.
  - discriminate.
  - reflexivity.
Defined.

Lemma successful_refresh_replaces_token_and_retries_witness :
  exists w' out retry,
    api Scenario.accepts_new_access Scenario.refresh_issues_new ViaAxiosPost 2
      Scenario.stored_session Scenario.events_request = Some (w', out) /\
    getAccessToken w' = Some "new-access" /\
    network_log w' =
      (network_log Scenario.stored_session
         ++ [Sent (request_interceptor Scenario.stored_session Scenario.events_request);
             RefreshPosted "refresh-1"; Sent retry])%list /\
    Authorization retry = Some ("Bearer " +:+ "new-access") /\
    _retry retry = true /\
    url retry = url Scenario.events_request /\
    method retry = method Scenario.events_request /\
    out = settle retry
            (Scenario.accepts_new_access
               (network_log Scenario.stored_session
                  ++ [Sent (request_interceptor Scenario.stored_session
                              Scenario.events_request);
                      RefreshPosted "refresh-1"])
               retry).
Proof.
  apply (successful_refresh_replaces_token_and_retries
           Scenario.accepts_new_access Scenario.refresh_issues_new ViaAxiosPost
           2 Scenario.stored_session Scenario.events_request
           "refresh-1" "token_not_valid" "new-access").
  - lia.
  - reflexivity.
  - vm_compute. reflexivity.
  - discriminate.
  - vm_compute. reflexivity.
  - exists 200. split; reflexivity.
Defined.

Lemma refresh_never_rotates_refresh_token_witness :
  exists w' out,
    api Scenario.accepts_new_access Scenario.refresh_issues_new ViaFetch 2
      Scenario.stored_session Scenario.events_request = Some (w', out) /\
    (forall access,
       request_access ViaFetch
         (Scenario.refresh_issues_new
            (network_log Scenario.stored_session
               ++ [Sent (request_interceptor Scenario.stored_session
                           Scenario.events_request)])
            "refresh-1")
       = Refreshed access ->
       getRefreshToken w' = Some "refresh-1" /\
       getAccessToken w' = Some (to_string access) /\
       forall k, k <> TOKEN_KEY ->
         localStorage w' !! k = localStorage Scenario.stored_session !! k) /\
    (getRefreshToken w' = Some "refresh-1" \/ getRefreshToken w' = None).
Proof.
  apply (refresh_never_rotates_refresh_token
           Scenario.accepts_new_access Scenario.refresh_issues_new ViaFetch
           2 Scenario.stored_session Scenario.events_request
           "refresh-1" "token_not_valid").
  - lia.
  - reflexivity.
  - vm_compute. reflexivity.
  - discriminate.
  - vm_compute. reflexivity.
Defined.

Lemma initAuth_resolves_stored_identity_witness :
  context_isAuthenticated (@initial_auth_state string) = false /\
  exists w' s',
    initAuth Scenario.accepts_new_access Scenario.refresh_issues_new ViaFetch 2
      Scenario.stored_session initial_auth_state = Some (w', s') /\
    isLoading s' = false /\
    (isAuthenticated Scenario.stored_session = false ->
       w' = Scenario.stored_session /\ user s' = None) /\
    (tokens_paired Scenario.stored_session ->
     getRefreshToken Scenario.stored_session = None ->
       w' = Scenario.stored_session /\ user s' = None) /\
    (isAuthenticated Scenario.stored_session = true ->
       exists w1 out rest,
         getProfile Scenario.accepts_new_access Scenario.refresh_issues_new ViaFetch 2
           Scenario.stored_session = Some (w1, out) /\
         network_log w1 =
           (network_log Scenario.stored_session
              ++ Sent (request_interceptor Scenario.stored_session profile_request)
                 :: rest)%list /\
         match out with
         | Resolved _ data _ =>
             w' = w1 /\ user s' = Some data /\ context_isAuthenticated s' = true
         | Rejected _ =>
             w' = clearTokens w1 /\ user s' = None /\
             context_isAuthenticated s' = false /\
             getAccessToken w' = None /\ getRefreshToken w' = None
         end).
Proof.
  apply (initAuth_resolves_stored_identity
           Scenario.accepts_new_access Scenario.refresh_issues_new ViaFetch
           2 Scenario.stored_session).
  lia.
Defined.

(* ===================================================================== *)
(** * The events page filter                                              *)
(* ===================================================================== *)

Section EventsPageFacts.

Variable parse_date : string -> EventsPage.time_value.
Variable toLowerCase : string -> string.
Variable now : Z.

Local Abbreviation matchesFilter := (EventsPage.matchesFilter parse_date now) (only parsing).
Local Abbreviation matchesSearch := (EventsPage.matchesSearch toLowerCase) (only parsing).
Local Abbreviation filteredEvents :=
  (EventsPage.filteredEvents parse_date toLowerCase now) (only parsing).

Lemma matchesFilter_all e : matchesFilter "all" e = true.
Proof. reflexivity. Qed.

Lemma matchesSearch_empty e : matchesSearch "" e = true.
Proof. reflexivity. Qed.

Lemma matchesFilter_at_now filter e :
  parse_date (EventsPage.date_time e) = Some now ->
  matchesFilter filter e = negb (String.eqb filter "upcoming" || String.eqb filter "past").
Proof.
  intros Hd. unfold EventsPage.matchesFilter. rewrite Hd.
  unfold EventsPage.isAfter, EventsPage.isBefore. rewrite Z.ltb_irrefl.
  destruct (String.eqb filter "upcoming"), (String.eqb filter "past"); reflexivity.
Qed.

Lemma filter_all_true {A} (f : A -> bool) (l : list A) :
  (forall x, In x l -> f x = true) -> List.filter f l = l.
Proof.
  induction l as [|x l IH]; intros H; simpl; [reflexivity|].
  rewrite (H x) by (left; reflexivity).
  f_equal. apply IH. intros y Hy. apply H. right. exact Hy.
Qed.

(** C10 (amended) -- An event whose [date_time] is the current time is
    matched by neither the [upcoming] nor the [past] filter and is in
    neither filtered list; the [all] filter matches it, and under [all] it
    is in the filtered list exactly when it matches the search term, in
    particular for the empty search term.  With [all] and an empty search
    term the filtered list is the list of fetched events. *)
Theorem event_at_now_passes_only_all events searchTerm e :
  In e events ->
  parse_date (EventsPage.date_time e) = Some now ->
  matchesFilter "upcoming" e = false /\
  matchesFilter "past" e = false /\
  matchesFilter "all" e = true /\
  ~ In e (filteredEvents events "upcoming" searchTerm) /\
  ~ In e (filteredEvents events "past" searchTerm) /\
  (In e (filteredEvents events "all" searchTerm) <-> matchesSearch searchTerm e = true) /\
  In e (filteredEvents events "all" "") /\
  filteredEvents events "all" "" = events.
Proof.
  intros Hin Hd.
  assert (Hup : matchesFilter "upcoming" e = false)
    by (rewrite matchesFilter_at_now by exact Hd; reflexivity).
  assert (Hpast : matchesFilter "past" e = false)
    by (rewrite matchesFilter_at_now by exact Hd; reflexivity).
  unfold EventsPage.filteredEvents.
  repeat split; try assumption.
  - rewrite filter_In, Hup. intros [_ H]. discriminate.
  - rewrite filter_In, Hpast. intros [_ H]. discriminate.
  - rewrite filter_In. intros [_ H]. exact H.
  - intros H. apply filter_In. split; [exact Hin | exact H].
  - apply filter_In. split; [exact Hin | reflexivity].
  - apply filter_all_true. reflexivity.
Qed.

End EventsPageFacts.

(** C10 (as stated) fails -- With the filter [all] and the search term
    [zzz], the event [Standup] scheduled exactly now is not in the filtered
    list: the search term is applied under every filter. *)
Lemma event_at_now_excluded_by_search_under_all :
  In Scenario.standup [Scenario.standup] /\
  Scenario.parse_date (EventsPage.date_time Scenario.standup) = Some 1758016800000 /\
  ~ In Scenario.standup
      (EventsPage.filteredEvents Scenario.parse_date Scenario.toLowerCase
         1758016800000 [Scenario.standup] "all" "zzz").
Proof.
  split; [left; reflexivity|]. split; [reflexivity|].
  vm_compute. intros H. exact H.
Qed.

Lemma event_at_now_passes_only_all_witness :
  EventsPage.matchesFilter Scenario.parse_date 1758016800000 "upcoming" Scenario.standup
    = false /\
  EventsPage.matchesFilter Scenario.parse_date 1758016800000 "past" Scenario.standup
    = false /\
  EventsPage.matchesFilter Scenario.parse_date 1758016800000 "all" Scenario.standup
    = true /\
  ~ In Scenario.standup
      (EventsPage.filteredEvents Scenario.parse_date Scenario.toLowerCase
         1758016800000 [Scenario.standup] "upcoming" "stand") /\
  ~ In Scenario.standup
      (EventsPage.filteredEvents Scenario.parse_date Scenario.toLowerCase
         1758016800000 [Scenario.standup] "past" "stand") /\
  (In Scenario.standup
      (EventsPage.filteredEvents Scenario.parse_date Scenario.toLowerCase
         1758016800000 [Scenario.standup] "all" "stand")
   <-> EventsPage.matchesSearch Scenario.toLowerCase "stand" Scenario.standup = true) /\
  In Scenario.standup
      (EventsPage.filteredEvents Scenario.parse_date Scenario.toLowerCase
         1758016800000 [Scenario.standup] "all" "") /\
  EventsPage.filteredEvents Scenario.parse_date Scenario.toLowerCase
    1758016800000 [Scenario.standup] "all" "" = [Scenario.standup].
Proof.
  apply (event_at_now_passes_only_all
           Scenario.parse_date Scenario.toLowerCase 1758016800000
           [Scenario.standup] "stand" Scenario.standup).
  - simpl. left. reflexivity.
  - reflexivity.
Defined.

(* ===================================================================== *)
(** * The access-scoped query layer                                       *)
(* ===================================================================== *)

Module BackendFacts.

Import Backend.

Lemma In_map_to_list (m : gmap Z Event) (kv : Z * Event) :
  In kv (map_to_list m) <-> m !! kv.1 = Some kv.2.
Proof.
  destruct kv as [i e]. rewrite <- list_elem_of_In. apply elem_of_map_to_list.
Qed.

Lemma In_list_events st who kv :
  In kv (list_events st who) <-> events st !! kv.1 = Some kv.2 /\ owner kv.2 = who.
Proof.
  unfold list_events. rewrite filter_In, In_map_to_list.
  unfold owned_by. rewrite bool_decide_eq_true. reflexivity.
Qed.

Lemma passes_unrecognised allowed_filter filter_matches params kv :
  forallb (fun p => negb (allowed_filter p.1)) params = true ->
  passes allowed_filter filter_matches params kv = true.
Proof.
  unfold passes. induction params as [|p params IH]; simpl; [reflexivity|].
  intros [Hp Hrest]%andb_prop.
  apply negb_true_iff in Hp. rewrite Hp. simpl. apply IH. exact Hrest.
Qed.

(** C1 -- [list(A)] holds exactly the stored events owned by [A].  Whatever
    query parameters the client adds, the list endpoint returns events of
    [list(A)] only, so no event of another identity [B] ever appears; and
    parameters that are not on the allow-list leave the result at
    [list(A)]. *)
Theorem list_returns_exactly_own_events
    (allowed_filter : string -> bool)
    (filter_matches : string -> string -> Event -> bool)
    (st : store) (A : identity) :
  (forall kv, In kv (list_events st A)
              <-> events st !! kv.1 = Some kv.2 /\ owner kv.2 = A) /\
  (forall params kv,
     In kv (list_endpoint allowed_filter filter_matches st A params) ->
     In kv (list_events st A)) /\
  (forall params B kv,
     B <> A -> owner kv.2 = B ->
     ~ In kv (list_endpoint allowed_filter filter_matches st A params)) /\
  (forall params,
     forallb (fun p => negb (allowed_filter p.1)) params = true ->
     list_endpoint allowed_filter filter_matches st A params = list_events st A).
Proof.
  split; [intros kv; apply In_list_events|].
  split; [intros params kv [H _]%filter_In; exact H|].
  split.
  - intros params B kv Hne Hown [H _]%filter_In.
    apply In_list_events in H as [_ H]. congruence.
  - intros params Hnone. unfold list_endpoint.
    apply filter_all_true. intros kv _.
    apply passes_unrecognised. exact Hnone.
Qed.

(** C4 -- [get(A, e)] returns the event exactly when it is stored and owned
    by [A]; in every other case the result is [NotFound].  It is never
    [Forbidden], and the failure for an existing event of someone else is
    the very result obtained for an identifier that does not exist. *)
Theorem get_owned_or_not_found (st : store) (A : identity) (eventId : Z) :
  (forall e, get st A eventId = Ok e
             <-> events st !! eventId = Some e /\ owner e = A) /\
  ((forall e, get st A eventId <> Ok e) -> get st A eventId = Err NotFound) /\
  get st A eventId <> Err Forbidden /\
  (forall e missing,
     events st !! eventId = Some e -> owner e <> A ->
     events st !! missing = None ->
     get st A eventId = Err NotFound /\ get st A missing = Err NotFound).
Proof.
  unfold get. repeat split.
  - destruct (events st !! eventId) as [e'|]; [|discriminate].
    destruct (bool_decide (owner e' = A)); congruence.
  - destruct (events st !! eventId) as [e'|]; [|discriminate].
    destruct (bool_decide_reflect (owner e' = A)); congruence.
  - intros [H Ho]. rewrite H. rewrite bool_decide_eq_true_2 by exact Ho. reflexivity.
  - intros Hno. destruct (events st !! eventId) as [e'|]; [|reflexivity].
    destruct (bool_decide (owner e' = A)); [|reflexivity].
    exfalso. apply (Hno e'). reflexivity.
  - destruct (events st !! eventId) as [e'|]; [|discriminate].
    destruct (bool_decide (owner e' = A)); discriminate.
  - rewrite H. rewrite bool_decide_eq_false_2 by exact H0. reflexivity.
  - rewrite H1. reflexivity.
Qed.

(** ** Share identifier format *)

Lemma all_chars_false p s :
  all_chars p s = false <->
  exists c, In c (String.list_ascii_of_string s) /\ p c = false.
Proof.
  induction s as [|c s IH]; simpl.
  - split; [discriminate | intros (c & [] & _)].
  - rewrite andb_false_iff, IH. split.
    + intros [Hc | (c' & Hin & Hc')]; [exists c; auto | exists c'; auto].
    + intros (c' & [<- | Hin] & Hc'); [left; exact Hc' | right; exists c'; auto].
Qed.

Lemma prefix_head a s1 c s2 :
  String.prefix (String a s1) (String c s2) = true -> a = c.
Proof.
  simpl. destruct (Ascii.ascii_dec a c) as [Heq | _]; [intros _; exact Heq | discriminate].
Qed.

(** A path-traversal sequence needs the characters [.] and [/], which are
    outside the alphabet. *)
Lemma traversal_has_bad_char s :
  includes s "../" = true -> all_chars share_id_char s = false.
Proof.
  induction s as [|c s IH]; [discriminate|].
  change (includes (String c s) "../")
    with (String.prefix "../" (String c s) || includes s "../").
  change (all_chars share_id_char (String c s))
    with (share_id_char c && all_chars share_id_char s).
  intros [Hp | Hrest]%orb_prop.
  - apply prefix_head in Hp. subst c. reflexivity.
  - rewrite (IH Hrest). apply andb_false_r.
Qed.

(** C6 -- A share identifier of the wrong length, with a character outside
    the alphabet, or containing the sequence [../] resolves to [NotFound]
    and no query reaches the storage layer. *)
Theorem malformed_share_id_not_found (st : store) (shareId : string) :
  (String.length shareId <> 36%nat \/
   (exists c, In c (String.list_ascii_of_string shareId) /\ share_id_char c = false) \/
   includes shareId "../" = true) ->
  valid_share_id shareId = false /\
  resolve st shareId = (Err NotFound, []).
Proof.
  intros H.
  assert (Hbad : valid_share_id shareId = false).
  { unfold valid_share_id. apply andb_false_iff.
    destruct H as [Hlen | [Hchar | Htrav]].
    - left. apply Nat.eqb_neq. exact Hlen.
    - right. apply all_chars_false. exact Hchar.
    - right. apply traversal_has_bad_char. exact Htrav. }
  split; [exact Hbad|].
  unfold resolve. rewrite Hbad. reflexivity.
Qed.

(** ** Share links *)

Lemma get_owned st who i e :
  events st !! i = Some e -> owner e = who -> get st who i = Ok e.
Proof.
  intros H Ho. unfold get. rewrite H, bool_decide_eq_true_2 by exact Ho. reflexivity.
Qed.

Lemma get_not_owned st who i e :
  events st !! i = Some e -> owner e <> who -> get st who i = Err NotFound.
Proof.
  intros H Ho. unfold get. rewrite H, bool_decide_eq_false_2 by exact Ho. reflexivity.
Qed.

(** With unique share identifiers the lookup finds the one event that
    carries the identifier. *)
Lemma find_shared_unique st s i e :
  share_ids_unique st ->
  events st !! i = Some e -> share_id e = Some s ->
  find_shared st s = Some (i, e).
Proof.
  intros Huniq Hi Hs. unfold find_shared.
  assert (Hin : In (i, e) (List.filter (shared_as s) (map_to_list (events st)))).
  { apply filter_In. split; [by apply In_map_to_list|].
    unfold shared_as. by apply bool_decide_eq_true. }
  destruct (List.filter (shared_as s) (map_to_list (events st))) as [|[j ej] l] eqn:Hl;
    [destruct Hin|].
  assert (Hj : In (j, ej) (List.filter (shared_as s) (map_to_list (events st))))
    by (rewrite Hl; left; reflexivity).
  apply filter_In in Hj as [Hj Hsj].
  apply In_map_to_list in Hj. simpl in Hj.
  unfold shared_as in Hsj. apply bool_decide_eq_true in Hsj. simpl in Hsj.
  assert (j = i) by (eapply Huniq; eassumption). subst j.
  simpl. congruence.
Qed.

Lemma find_shared_sound st s i e :
  find_shared st s = Some (i, e) ->
  events st !! i = Some e /\ share_id e = Some s.
Proof.
  unfold find_shared. intros H.
  destruct (List.filter (shared_as s) (map_to_list (events st))) as [|kv l] eqn:Hl;
    [discriminate|].
  injection H as ->.
  assert (Hin : In (i, e) (List.filter (shared_as s) (map_to_list (events st))))
    by (rewrite Hl; left; reflexivity).
  apply filter_In in Hin as [Hin Hs]. apply In_map_to_list in Hin.
  unfold shared_as in Hs. apply bool_decide_eq_true in Hs. auto.
Qed.

Lemma resolve_shared st s i e :
  share_ids_unique st ->
  events st !! i = Some e -> share_id e = Some s ->
  valid_share_id s = true ->
  resolve st s = (Ok (public_projection st e), [EventByShareId s; UserById (owner e)]).
Proof.
  intros Huniq Hi Hs Hv. unfold resolve.
  rewrite Hv, (find_shared_unique st s i e Huniq Hi Hs). reflexivity.
Qed.

(** Replacing the event stored at [i] keeps the share identifiers unique
    as long as the new event shares no identifier with another event. *)
Lemma insert_keeps_unique st i e' :
  share_ids_unique st ->
  (forall j ej s, j <> i -> events st !! j = Some ej ->
                  share_id ej = Some s -> share_id e' <> Some s) ->
  share_ids_unique (with_events (<[i := e']> (events st)) st).
Proof.
  intros Huniq Hother a b ea eb s Ha Hb Hsa Hsb. simpl in Ha, Hb.
  destruct (decide (a = i)) as [->|Hai], (decide (b = i)) as [->|Hbi];
    [reflexivity | | | ].
  - rewrite lookup_insert_eq in Ha. injection Ha as <-.
    rewrite lookup_insert_ne in Hb by congruence.
    exfalso. exact (Hother b eb s Hbi Hb Hsb Hsa).
  - rewrite lookup_insert_eq in Hb. injection Hb as <-.
    rewrite lookup_insert_ne in Ha by congruence.
    exfalso. exact (Hother a ea s Hai Ha Hsa Hsb).
  - rewrite lookup_insert_ne in Ha by congruence.
    rewrite lookup_insert_ne in Hb by congruence.
    exact (Huniq a b ea eb s Ha Hb Hsa Hsb).
Qed.

Lemma update_keeps_unique st i e f :
  share_ids_unique st -> events st !! i = Some e ->
  share_ids_unique (with_events (<[i := with_fields f e]> (events st)) st).
Proof.
  intros Huniq Hi. apply insert_keeps_unique; [exact Huniq|].
  intros j ej s Hji Hj Hsj Hse. simpl in Hse.
  apply Hji. exact (Huniq j i ej e s Hj Hi Hsj Hse).
Qed.

(** [generate] on an owned event: the event now carries the returned
    identifier, which is well formed, and nothing else about it changed. *)
Lemma generate_owned policy st A i e fresh :
  share_ids_unique st -> share_ids_well_formed st ->
  events st !! i = Some e -> owner e = A ->
  valid_share_id fresh = true -> unused_share_id st fresh ->
  exists st' sid e',
    generate policy st A i fresh = Ok (st', sid) /\
    events st' !! i = Some e' /\
    share_id e' = Some sid /\
    valid_share_id sid = true /\
    share_ids_unique st' /\
    users st' = users st /\
    owner e' = A /\
    public_projection st' e' = public_projection st e.
Proof.
  intros Huniq Hwf Hi Ho Hv Hfresh.
  assert (Hnew :
    let st' := with_events (<[i := with_share_id fresh e]> (events st)) st in
    events st' !! i = Some (with_share_id fresh e) /\
    share_ids_unique st').
  { split; [apply lookup_insert_eq|].
    apply insert_keeps_unique; [exact Huniq|].
    intros j ej s _ Hj Hsj Hse. simpl in Hse. injection Hse as <-.
    exact (Hfresh j ej Hj Hsj). }
  destruct Hnew as [Hlook Huniq'].
  unfold generate. rewrite (get_owned st A i e Hi Ho).
  destruct (share_id e) as [s|] eqn:Hs; [destruct policy|].
  - exists st, s, e. repeat split; try assumption; try reflexivity.
    exact (Hwf i e s Hi Hs).
  - eexists _, fresh, _. split; [reflexivity|]. split; [exact Hlook|].
    repeat split; assumption.
  - eexists _, fresh, _. split; [reflexivity|]. split; [exact Hlook|].
    repeat split; assumption.
Qed.

(** C5 -- For an event [e] owned by [A], resolving the identifier returned
    by [generate] succeeds without any identity and yields the public
    projection of [e]; the identifier leads to that event and to no other;
    after the owner updates the event, resolving the same identifier yields
    the updated fields; and a holder of the link who is not the owner can
    neither update nor delete the event. *)
Theorem share_round_trip policy (st : store) (A : identity) (eventId : Z)
    (e : Event) (fresh : string) (f : EventFields) :
  share_ids_unique st -> share_ids_well_formed st ->
  events st !! eventId = Some e -> owner e = A ->
  valid_share_id fresh = true -> unused_share_id st fresh ->
  exists st' sid,
    generate policy st A eventId fresh = Ok (st', sid) /\
    resolve st' sid
      = (Ok (public_projection st e), [EventByShareId sid; UserById A]) /\
    (forall i x, find_shared st' sid = Some (i, x) -> i = eventId) /\
    (exists st'',
       update st' A eventId f = Ok st'' /\
       resolve st'' sid
         = (Ok {| public_title := new_title f;
                  public_time := new_date_time f;
                  public_location := new_location f;
                  public_description := new_description f;
                  public_owner_name := users st !! A |},
            [EventByShareId sid; UserById A])) /\
    (forall B g, B <> A ->
       update st' B eventId g = Err NotFound /\
       delete_event st' B eventId = Err NotFound).
Proof.
  intros Huniq Hwf Hi Ho Hv Hfresh.
  destruct (generate_owned policy st A eventId e fresh Huniq Hwf Hi Ho Hv Hfresh)
    as (st' & sid & e' & Hgen & Hi' & Hs' & Hv' & Huniq' & Husers & Ho' & Hproj).
  exists st', sid. split; [exact Hgen|].
  split.
  { rewrite (resolve_shared st' sid eventId e' Huniq' Hi' Hs' Hv'), Hproj, Ho'.
    reflexivity. }
  split.
  { intros i x Hfind. apply find_shared_sound in Hfind as [Hx Hsx].
    exact (Huniq' i eventId x e' sid Hx Hi' Hsx Hs'). }
  split.
  { eexists. split.
    - unfold update. rewrite (get_owned st' A eventId e' Hi' Ho'). reflexivity.
    - rewrite (resolve_shared _ sid eventId (with_fields f e')).
      + unfold public_projection. simpl. rewrite Husers, Ho'. reflexivity.
      + apply update_keeps_unique; assumption.
      + simpl. apply lookup_insert_eq.
      + simpl. exact Hs'.
      + exact Hv'. }
  intros B g HB.
  assert (Hget : get st' B eventId = Err NotFound)
    by (apply (get_not_owned st' B eventId e' Hi'); congruence).
  unfold update, delete_event. rewrite Hget. auto.
Qed.

End BackendFacts.

(* ===================================================================== *)
(** * The query layer on an example store                                 *)
(* ===================================================================== *)

Lemma two_users_events i e :
  Backend.events Scenario.two_users !! i = Some e ->
  (i = 10 /\ e = Scenario.alice_standup) \/ (i = 20 /\ e = Scenario.bob_review).
Proof.
  unfold Scenario.two_users; simpl. intros H.
  destruct (decide (i = 10)) as [->|H10].
  - rewrite lookup_insert_eq in H. left. split; congruence.
  - rewrite lookup_insert_ne in H by congruence.
    destruct (decide (i = 20)) as [->|H20].
    + rewrite lookup_insert_eq in H. right. split; congruence.
    + rewrite lookup_insert_ne in H by congruence.
      rewrite lookup_empty in H. discriminate.
Qed.

Lemma two_users_unique : Backend.share_ids_unique Scenario.two_users.
Proof.
  intros i j ei ej s Hi Hj Hsi Hsj.
  apply two_users_events in Hi as [[-> ->] | [-> ->]];
    apply two_users_events in Hj as [[-> ->] | [-> ->]];
    simpl in *; congruence.
Qed.

Lemma two_users_well_formed : Backend.share_ids_well_formed Scenario.two_users.
Proof.
  intros i e s Hi Hs.
  apply two_users_events in Hi as [[-> ->] | [-> ->]]; simpl in Hs.
  - discriminate.
  - injection Hs as <-. reflexivity.
Qed.

Lemma fresh_share_id_unused :
  Backend.unused_share_id Scenario.two_users Scenario.fresh_share_id.
Proof.
  intros i e Hi.
  apply two_users_events in Hi as [[-> ->] | [-> ->]]; simpl; discriminate.
Qed.

Lemma malformed_share_id_not_found_witness :
  Backend.valid_share_id "../../etc/passwd" = false /\
  Backend.resolve Scenario.two_users "../../etc/passwd"
    = (Backend.Err Backend.NotFound, []).
Proof.
  apply (BackendFacts.malformed_share_id_not_found
           Scenario.two_users "../../etc/passwd").
  right. right. vm_compute. reflexivity.
Defined.

Lemma share_round_trip_witness :
  exists st' sid,
    Backend.generate Backend.MintNew Scenario.two_users Scenario.alice 10
      Scenario.fresh_share_id = Backend.Ok (st', sid) /\
    Backend.resolve st' sid
      = (Backend.Ok (Backend.public_projection Scenario.two_users Scenario.alice_standup),
         [Backend.EventByShareId sid; Backend.UserById Scenario.alice]) /\
    (forall i x, Backend.find_shared st' sid = Some (i, x) -> i = 10) /\
    (exists st'',
       Backend.update st' Scenario.alice 10 Scenario.renamed = Backend.Ok st'' /\
       Backend.resolve st'' sid
         = (Backend.Ok
              {| Backend.public_title := Backend.new_title Scenario.renamed;
                 Backend.public_time := Backend.new_date_time Scenario.renamed;
                 Backend.public_location := Backend.new_location Scenario.renamed;
                 Backend.public_description := Backend.new_description Scenario.renamed;
                 Backend.public_owner_name :=
                   Backend.users Scenario.two_users !! Scenario.alice |},
            [Backend.EventByShareId sid; Backend.UserById Scenario.alice])) /\
    (forall B g, B <> Scenario.alice ->
       Backend.update st' B 10 g = Backend.Err Backend.NotFound /\
       Backend.delete_event st' B 10 = Backend.Err Backend.NotFound).
Proof.
  apply (BackendFacts.share_round_trip Backend.MintNew Scenario.two_users
           Scenario.alice 10 Scenario.alice_standup Scenario.fresh_share_id
           Scenario.renamed).
  - exact two_users_unique.
  - exact two_users_well_formed.
  - vm_compute. reflexivity.
  - reflexivity.
  - vm_compute. reflexivity.
  - exact fresh_share_id_unused.
Defined.

(* ===================================================================== *)
(** * Further paths through the interceptors                              *)
(* ===================================================================== *)

Section InterceptorPaths.

Context {json : Type}.
Variable backend : list net_event -> request_config -> @http_reply json.
Variable refresh_endpoint : list net_event -> string -> refresh_reply.
Variable transport : refresh_transport.

Local Abbreviation call_api := (api backend refresh_endpoint transport) (only parsing).

(** Every request leaves the browser with the access token that is stored
    at that moment, whatever header the caller had set; when no truthy
    token is stored the request goes out as the caller built it. *)
Theorem first_dispatch_carries_stored_token fuel w config :
  (2 <= fuel)%nat ->
  exists w' out sent rest,
    call_api fuel w config = Some (w', out) /\
    network_log w' = (network_log w ++ Sent sent :: rest)%list /\
    url sent = url config /\ method sent = method config /\
    _retry sent = _retry config /\
    (forall token, getAccessToken w = Some token -> token <> "" ->
       Authorization sent = Some ("Bearer " +:+ token)) /\
    (isAuthenticated w = false -> sent = config).
Proof.
  intros Hfuel.
  destruct (api_total backend refresh_endpoint transport fuel w config Hfuel)
    as (w' & out & rest & Hapi & Hlog).
  exists w', out, (request_interceptor w config), rest.
  split; [exact Hapi|]. split; [exact Hlog|].
  unfold request_interceptor, isAuthenticated, truthy, if_truthy.
  destruct (getAccessToken w) as [t|].
  - destruct (String.eqb_spec t "") as [->|Hne]; simpl.
    + repeat split; try reflexivity. intros token [= <-] H. contradiction.
    + repeat split; try reflexivity; [|discriminate].
      intros token [= <-] _. reflexivity.
  - repeat split; try reflexivity. intros token [=].
Qed.

(** A reply that is not a 401 (any other status, or no reply at all) is
    handed to the caller as the adapter settled it: one dispatch, no
    refresh, and neither the storage nor the location changes. *)
Theorem reply_other_than_401_is_passed_through fuel w config :
  (1 <= fuel)%nat ->
  (forall d, backend (network_log w) (request_interceptor w config) <> Reply 401 d) ->
  exists w',
    call_api fuel w config
      = Some (w', settle (request_interceptor w config)
                    (backend (network_log w) (request_interceptor w config))) /\
    localStorage w' = localStorage w /\
    location_href w' = location_href w /\
    network_log w' = (network_log w ++ [Sent (request_interceptor w config)])%list.
Proof.
  intros Hfuel Hnot.
  destruct fuel as [|fuel]; [lia|].
  rewrite api_other_failure.
  - eexists. split; [reflexivity|]. repeat split.
  - destruct (backend _ _) as [status d|]; [|reflexivity].
    simpl. destruct (Z.eqb_spec status 401) as [->|]; [|reflexivity].
    exfalso. exact (Hnot d eq_refl).
Qed.

(** A 401 while no truthy refresh token is stored ends the session at
    once: both token slots are emptied, the browser is sent to the login
    page, nothing is posted to the refresh endpoint and the request is not
    dispatched again; the caller gets the 401 back. *)
Theorem unauthorized_without_refresh_token_ends_session fuel w config d :
  (1 <= fuel)%nat ->
  _retry config = false ->
  truthy (getRefreshToken w) = false ->
  backend (network_log w) (request_interceptor w config) = Reply 401 d ->
  exists w',
    call_api fuel w config
      = Some (w', Rejected (AxiosError (with_retry (request_interceptor w config))
                              (Some (401, d)))) /\
    getAccessToken w' = None /\
    getRefreshToken w' = None /\
    location_href w' = "/login" /\
    network_log w' = (network_log w ++ [Sent (request_interceptor w config)])%list.
Proof.
  intros Hfuel Hretry Htruthy Hb.
  destruct fuel as [|fuel]; [lia|].
  rewrite (api_no_refresh_token _ _ _ _ w config d Hretry Htruthy Hb). cbv zeta.
  eexists. split; [reflexivity|].
  split; [apply getAccessToken_clearTokens|].
  split; [apply getRefreshToken_clearTokens|].
  split; reflexivity.
Qed.

(** The recovery is invisible to the caller: when the refresh succeeds and
    the backend accepts the retried request, the call resolves with the
    payload of the retry, the browser stays where it is and the storage
    holds the new access token next to the old refresh token. *)
Theorem recovered_request_resolves fuel w config rt d access status data :
  (2 <= fuel)%nat ->
  _retry config = false ->
  getRefreshToken w = Some rt -> rt <> "" ->
  backend (network_log w) (request_interceptor w config) = Reply 401 d ->
  refresh_succeeds
    (refresh_endpoint (network_log w ++ [Sent (request_interceptor w config)]) rt)
    access ->
  backend
    (network_log w ++ [Sent (request_interceptor w config); RefreshPosted rt])
    (with_Authorization ("Bearer " +:+ access)
       (with_retry (request_interceptor w config)))
    = Reply status data ->
  validateStatus status = true ->
  exists w',
    call_api fuel w config
      = Some (w', Resolved status data
                    (with_Authorization ("Bearer " +:+ access)
                       (with_retry (request_interceptor w config)))) /\
    getAccessToken w' = Some access /\
    getRefreshToken w' = Some rt /\
    location_href w' = location_href w.
Proof.
  intros Hfuel Hretry Hrt Hne Hb Hok Hb2 Hvalid.
  destruct fuel as [|[|fuel]]; [lia | lia | clear Hfuel].
  rewrite (api_refresh_cycle _ _ _ fuel w config rt d Hretry Hrt Hne Hb).
  cbv zeta. rewrite (refresh_succeeds_access transport _ _ Hok).
  eexists. split.
  - f_equal. f_equal.
    change (network_log (setTokens ?a ?r ?x)) with (network_log x).
    change (network_log (record_event (RefreshPosted rt) ?x))
      with (network_log x ++ [RefreshPosted rt])%list.
    change (network_log (record_event (Sent ?c) w)) with (network_log w ++ [Sent c])%list.
    rewrite <- app_assoc. simpl app. simpl to_string. rewrite Hb2.
    simpl. rewrite Hvalid. reflexivity.
  - split; [apply getAccessToken_setTokens|].
    split; [apply (getRefreshToken_setTokens _ (JSString rt))|]. reflexivity.
Qed.


(** In both copies of the module a refresh call that throws ends the
    session: both token slots are emptied, the browser is sent to the
    login page, the caller is rejected with what the refresh threw and the
    suspended request is never dispatched again. *)
Theorem thrown_refresh_ends_session fuel w config rt d :
  (2 <= fuel)%nat ->
  _retry config = false ->
  getRefreshToken w = Some rt -> rt <> "" ->
  backend (network_log w) (request_interceptor w config) = Reply 401 d ->
  request_access transport
    (refresh_endpoint (network_log w ++ [Sent (request_interceptor w config)]) rt)
    = RefreshThrew ->
  exists w',
    call_api fuel w config = Some (w', Rejected RefreshError) /\
    getAccessToken w' = None /\
    getRefreshToken w' = None /\
    location_href w' = "/login" /\
    network_log w' =
      (network_log w ++ [Sent (request_interceptor w config); RefreshPosted rt])%list.
Proof.
  intros Hfuel Hretry Hrt Hne Hb Hthrew.
  destruct fuel as [|[|fuel]]; [lia | lia | clear Hfuel].
  rewrite (api_refresh_cycle _ _ _ fuel w config rt d Hretry Hrt Hne Hb).
  cbv zeta. rewrite Hthrew.
  eexists. split; [reflexivity|].
  split; [apply getAccessToken_clearTokens|].
  split; [apply getRefreshToken_clearTokens|].
  split; [reflexivity|].
  simpl. rewrite <- !app_assoc. reflexivity.
Qed.

End InterceptorPaths.

(** When does the refresh call throw?  With [fetch] only when there is no
    reply or the body is not a JSON value other than [null]; with
    [axios.post] also, and for every body, when the status is outside
    2xx. *)
Lemma refresh_call_throws_exactly_when (t : refresh_transport) (r : refresh_reply) :
  request_access t r = RefreshThrew <->
  match r with
  | RefreshNoReply => True
  | RefreshReply status body =>
      match t with
      | ViaFetch => body = BodyNotJson \/ body = BodyJsonNull
      | ViaAxiosPost => validateStatus status = false \/ body = BodyJsonNull
      end
  end.
Proof.
  destruct r as [|status body]; [destruct t; simpl; tauto|].
  destruct t; simpl.
  - destruct body; split; try tauto; try discriminate;
      intros [H | H]; discriminate.
  - destruct (validateStatus status), body; split; try tauto; try discriminate;
      intros [H | H]; discriminate.
Qed.

(* ===================================================================== *)
(** * Login, registration, logout and the route guards                    *)
(* ===================================================================== *)

Lemma field_or_truthy a b : field_truthy b = true -> field_truthy (field_or a b) = true.
Proof. intros Hb. unfold field_or. destruct (field_truthy a) eqn:Ha; assumption. Qed.

Section AuthFlowFacts.

Context {json : Type}.
Variable backend : list net_event -> request_config -> @http_reply json.
Variable refresh_endpoint : list net_event -> string -> refresh_reply.
Variable prop_access : json -> js_value.
Variable prop_refresh : json -> js_value.
Variable prop_user : json -> option json.
Variable prop_first_name : json -> js_value.
Variable prop_field : json -> string -> field_value.

Local Abbreviation run_login :=
  (login backend refresh_endpoint prop_access prop_refresh prop_user
     prop_first_name prop_field) (only parsing).
Local Abbreviation run_register :=
  (register backend refresh_endpoint prop_access prop_refresh prop_user
     prop_first_name prop_field) (only parsing).

Lemma login_message_truthy data :
  field_truthy (login_message prop_field data) = true.
Proof. unfold login_message. apply field_or_truthy. reflexivity. Qed.

(** What [api] does with a request that the backend accepts at once. *)
Lemma api_accepted transport fuel w config status data :
  backend (network_log w) (request_interceptor w config) = Reply status data ->
  validateStatus status = true ->
  api backend refresh_endpoint transport (S fuel) w config
    = Some (record_event (Sent (request_interceptor w config)) w,
            Resolved status data (request_interceptor w config)).
Proof. intros Hb Hv. simpl. rewrite Hb, Hv. reflexivity. Qed.

(** When the backend accepts the credentials and the reply carries a user,
    [login] stores the string forms of the two tokens of the reply, sets
    the user, reports success with one welcome toast, and from then on the
    guards open the protected routes and every request carries the new
    access token. *)
Theorem accepted_login_opens_session fuel w p status data u :
  (1 <= fuel)%nat ->
  backend (network_log w) (request_interceptor w login_request) = Reply status data ->
  validateStatus status = true ->
  prop_user data = Some u ->
  exists w' p',
    run_login fuel w p
      = Some (w', (p', {| success := true; error := None; errors := None |})) /\
    getAccessToken w' = Some (to_string (prop_access data)) /\
    getRefreshToken w' = Some (to_string (prop_refresh data)) /\
    location_href w' = location_href w /\
    auth p' = {| user := Some u; isLoading := false |} /\
    toasts p' = (toasts p
                 ++ [ToastSuccess ("Welcome back, " +:+ to_string (prop_first_name u)
                                   +:+ "!")])%list /\
    ProtectedRoute (auth p') = Children /\
    PublicRoute (auth p') = Navigate "/dashboard" /\
    (to_string (prop_access data) <> "" ->
     forall config,
       Authorization (request_interceptor w' config)
       = Some ("Bearer " +:+ to_string (prop_access data))).
Proof.
  intros Hfuel Hb Hv Hu. destruct fuel as [|fuel]; [lia|].
  unfold login, authAPI_login, authAPI_post.
  rewrite (api_accepted ViaFetch fuel w login_request status data Hb Hv), Hu.
  eexists _, _. split; [reflexivity|].
  split; [apply getAccessToken_setTokens|].
  split; [apply getRefreshToken_setTokens|].
  repeat (split; [reflexivity|]).
  intros Hne config. unfold request_interceptor.
  rewrite getAccessToken_setTokens, if_truthy_yes by exact Hne. reflexivity.
Qed.

(** A 2xx reply to the login request that carries no user is reported as a
    failed login with the fallback message and leaves the user unset, but
    the tokens of that reply are in the storage all the same. *)
Theorem login_reply_without_user_still_stores_tokens fuel w p status data :
  (1 <= fuel)%nat ->
  backend (network_log w) (request_interceptor w login_request) = Reply status data ->
  validateStatus status = true ->
  prop_user data = None ->
  exists w' p',
    run_login fuel w p
      = Some (w', (p', {| success := false;
                          error := Some (FieldString
                                     "Login failed. Please check your credentials.");
                          errors := None |})) /\
    getAccessToken w' = Some (to_string (prop_access data)) /\
    getRefreshToken w' = Some (to_string (prop_refresh data)) /\
    auth p' = {| user := None; isLoading := false |} /\
    ProtectedRoute (auth p') = Navigate "/login" /\
    isAuthenticated w' = negb (String.eqb (to_string (prop_access data)) "").
Proof.
  intros Hfuel Hb Hv Hu. destruct fuel as [|fuel]; [lia|].
  unfold login, authAPI_login, authAPI_post.
  rewrite (api_accepted ViaFetch fuel w login_request status data Hb Hv), Hu.
  eexists _, _. split; [reflexivity|].
  split; [apply getAccessToken_setTokens|].
  split; [apply getRefreshToken_setTokens|].
  split; [reflexivity|]. split; [reflexivity|].
  unfold isAuthenticated. rewrite getAccessToken_setTokens. reflexivity.
Qed.

(** However the login request is rejected, [login] leaves the user as it
    was, stops loading, reports failure and shows exactly one error toast
    with the message it returns; that message is never empty, and it is
    the fallback text when the rejection carries no response. *)
Theorem rejected_login_keeps_user fuel w p w1 e :
  api backend refresh_endpoint ViaFetch fuel w login_request = Some (w1, Rejected e) ->
  exists p' message,
    run_login fuel w p
      = Some (w1, (p', {| success := false; error := Some message; errors := None |})) /\
    user (auth p') = user (auth p) /\
    isLoading (auth p') = false /\
    toasts p' = (toasts p ++ [ToastError message])%list /\
    field_truthy message = true /\
    (error_data e = None ->
     message = FieldString "Login failed. Please check your credentials.").
Proof.
  intros Hapi. unfold login, authAPI_login, authAPI_post. rewrite Hapi.
  eexists _, _. split; [reflexivity|].
  repeat (split; [reflexivity|]).
  split; [apply login_message_truthy|].
  intros ->. reflexivity.
Qed.

(** A registration that the backend rejects with a status other than 401
    changes neither the storage nor the user, and hands the error payload
    of the reply back to the form unchanged. *)
Theorem rejected_registration_returns_errors fuel w p status data :
  (1 <= fuel)%nat ->
  backend (network_log w) (request_interceptor w register_request) = Reply status data ->
  validateStatus status = false -> status <> 401 ->
  exists w' p' message,
    run_register fuel w p
      = Some (w', (p', {| success := false; error := Some message;
                          errors := Some data |})) /\
    localStorage w' = localStorage w /\
    location_href w' = location_href w /\
    user (auth p') = user (auth p) /\
    isLoading (auth p') = false /\
    toasts p' = (toasts p ++ [ToastError message])%list /\
    message = register_message prop_field (Some data).
Proof.
  intros Hfuel Hb Hv Hne. destruct fuel as [|fuel]; [lia|].
  unfold register, authAPI_register, authAPI_post.
  rewrite api_other_failure.
  - rewrite Hb. unfold settle. rewrite Hv. simpl.
    eexists _, _, _. split; [reflexivity|]. repeat split.
  - rewrite Hb. simpl. apply Z.eqb_neq. exact Hne.
Qed.

(** [logout] empties both token slots and unsets the user without any
    network traffic; a reload of the application afterwards sends nothing
    either and ends on the login page for every protected route. *)
Theorem logout_ends_session transport fuel w (p : @provider json) :
  exists w' p',
    logout w p = (w', p') /\
    getAccessToken w' = None /\
    getRefreshToken w' = None /\
    network_log w' = network_log w /\
    user (auth p') = None /\
    initAuth backend refresh_endpoint transport fuel w' initial_auth_state
      = Some (w', {| user := None; isLoading := false |}) /\
    ProtectedRoute {| user := @None json; isLoading := false |} = Navigate "/login".
Proof.
  eexists _, _. split; [reflexivity|].
  split; [apply getAccessToken_clearTokens|].
  split; [apply getRefreshToken_clearTokens|].
  split; [reflexivity|]. split; [reflexivity|].
  split; [|reflexivity].
  unfold initAuth, authAPI_logout, isAuthenticated.
  rewrite getAccessToken_clearTokens. reflexivity.
Qed.


End AuthFlowFacts.

(* ===================================================================== *)
(** * The tour                                                            *)
(* ===================================================================== *)

Module TutorialFacts.

Import Tutorial.

Lemma handle_keeps_index c w s :
  0 <= currentStep s < 6 -> 0 <= currentStep (handle c (w, s)).2 < 6.
Proof.
  intros Hs.
  destruct c; unfold handle, nextStep, prevStep, closeTutorial, skipTutorial,
    isFirstStep, onClose, open;
    change (Z.of_nat (length tutorialSteps) - 1) with 5;
    repeat match goal with
           | |- context [if ?b then _ else _] => destruct b eqn:?
           end;
    simpl; lia.
Qed.

Lemma run_keeps_index clicks ws :
  0 <= currentStep ws.2 < 6 -> 0 <= currentStep (run clicks ws).2 < 6.
Proof.
  revert ws. induction clicks as [|c clicks IH]; intros [w s] Hs; [exact Hs|].
  change (run (c :: clicks) (w, s)) with (run clicks (handle c (w, s))).
  apply IH. apply handle_keeps_index. exact Hs.
Qed.

(** Whatever is clicked, in whatever order, [currentStep] stays an index
    of [tutorialSteps], so the component always finds the step it is
    asked to render. *)
Theorem current_step_is_always_defined (clicks : list click) (w : world) :
  0 <= currentStep (run clicks (w, initial)).2 < Z.of_nat (length tutorialSteps) /\
  is_Some (current (run clicks (w, initial)).2).
Proof.
  assert (H : 0 <= currentStep (run clicks (w, initial)).2 < 6)
    by (apply run_keeps_index; simpl; lia).
  split; [exact H|].
  unfold current. destruct (Z.ltb_spec (currentStep (run clicks (w, initial)).2) 0); [lia|].
  apply lookup_lt_is_Some. simpl. lia.
Qed.

Lemma run_app l1 l2 ws : run (l1 ++ l2) ws = run l2 (run l1 ws).
Proof. unfold run. apply fold_left_app. Qed.

Lemma next_clicks w n :
  (n <= 5)%nat ->
  run (replicate n ClickNext) (w, open initial)
  = (w, {| currentStep := Z.of_nat n; showTutorial := true |}).
Proof.
  induction n as [|n IH]; intros Hn; [reflexivity|].
  replace (S n) with (n + 1)%nat by lia.
  rewrite replicate_add, run_app, IH by lia.
  change (run (replicate 1 ClickNext) ?ws) with (handle ClickNext ws).
  unfold handle, nextStep. cbn [showTutorial currentStep].
  change (Z.of_nat (length tutorialSteps) - 1) with 5.
  destruct (Z.ltb_spec (Z.of_nat n) 5) as [_|Hge]; [|lia].
  do 2 f_equal. lia.
Qed.

(** From the first step, [n] clicks on Next lead to step [n] without
    touching the storage, up to the last step; the click on Finish there
    closes the tour and records its completion, and the tour stays on the
    last step, which is where the help button reopens it.  Back undoes
    Next. *)
Theorem walking_the_tour (w : world) :
  (forall n, (n <= 5)%nat ->
     run (replicate n ClickNext) (w, open initial)
     = (w, {| currentStep := Z.of_nat n; showTutorial := true |})) /\
  run (replicate 6 ClickNext) (w, open initial)
  = (setItem "tutorial-completed" (JSString "true") w,
     {| currentStep := 5; showTutorial := false |}) /\
  run (replicate 6 ClickNext ++ [ClickTutorialButton]) (w, open initial)
  = (setItem "tutorial-completed" (JSString "true") w,
     {| currentStep := 5; showTutorial := true |}) /\
  (forall s, showTutorial s = true -> 0 <= currentStep s < 5 ->
     handle ClickBack (handle ClickNext (w, s)) = (w, s)).
Proof.
  split; [intros n Hn; apply next_clicks; exact Hn|].
  split; [reflexivity|]. split; [reflexivity|].
  intros [i o] Ho Hi. simpl in Ho, Hi. subst o.
  unfold handle at 2. unfold nextStep. cbn [showTutorial currentStep].
  change (Z.of_nat (length tutorialSteps) - 1) with 5.
  destruct (Z.ltb_spec i 5) as [_|Hge]; [|lia].
  unfold handle, isFirstStep, prevStep. cbn [showTutorial currentStep].
  destruct (Z.eqb_spec (i + 1) 0) as [H0|_]; [lia|]. cbn [negb andb].
  destruct (Z.ltb_spec 0 (i + 1)) as [_|Hle]; [|lia].
  do 2 f_equal. lia.
Qed.








End TutorialFacts.

(* ===================================================================== *)
(** * The retry delay of the query client                                 *)
(* ===================================================================== *)

(** For failure counts from 0 the delay starts at one second, doubles with
    every failure up to the fifth attempt, never decreases and never
    exceeds thirty seconds, which it reaches from the sixth attempt on. *)
Theorem retryDelay_backoff (i j : Z) :
  0 <= i <= j ->
  1000 <= QueryProvider.retryDelay i /\
  QueryProvider.retryDelay i <= QueryProvider.retryDelay j /\
  QueryProvider.retryDelay j <= 30000 /\
  (i <= 4 -> QueryProvider.retryDelay i = 1000 * 2 ^ i) /\
  (i <= 3 -> QueryProvider.retryDelay (i + 1) = 2 * QueryProvider.retryDelay i) /\
  (5 <= i -> QueryProvider.retryDelay i = 30000).
Proof.
  intros [Hi Hij]. unfold QueryProvider.retryDelay.
  assert (H1 : 1 <= 2 ^ i) by (apply (Z.pow_le_mono_r 2 0 i); lia).
  assert (Hm : 2 ^ i <= 2 ^ j) by (apply Z.pow_le_mono_r; lia).
  split; [lia|]. split; [lia|]. split; [lia|]. split; [|split].
  - intros H4.
    assert (H16 : 2 ^ i <= 2 ^ 4) by (apply Z.pow_le_mono_r; lia).
    change (2 ^ 4) with 16 in H16. lia.
  - intros H3.
    assert (H8 : 2 ^ i <= 2 ^ 3) by (apply Z.pow_le_mono_r; lia).
    change (2 ^ 3) with 8 in H8.
    rewrite Z.pow_add_r by lia. change (2 ^ 1) with 2. lia.
  - intros H5.
    assert (H32 : 2 ^ 5 <= 2 ^ i) by (apply Z.pow_le_mono_r; lia).
    change (2 ^ 5) with 32 in H32. lia.
Qed.

(* ===================================================================== *)
(** * Trimming and the event form                                         *)
(* ===================================================================== *)

Lemma trimStart_white s :
  Backend.all_chars is_white_space s = true -> trimStart s = "".
Proof.
  induction s as [|c s IH]; simpl; [reflexivity|].
  intros [Hc Hs]%andb_prop. rewrite Hc. apply IH. exact Hs.
Qed.

Lemma trimEnd_white s :
  Backend.all_chars is_white_space s = true -> trimEnd s = "".
Proof.
  induction s as [|c s IH]; simpl; [reflexivity|].
  intros [Hc Hs]%andb_prop. rewrite (IH Hs), Hc. reflexivity.
Qed.

Lemma append_empty (s : string) : "" +:+ s = s.
Proof. reflexivity. Qed.

Lemma append_cons c (s t : string) : String c s +:+ t = String c (s +:+ t).
Proof. reflexivity. Qed.

Lemma trimStart_app_white pad s :
  Backend.all_chars is_white_space pad = true ->
  trimStart (pad +:+ s) = trimStart s.
Proof.
  induction pad as [|c pad IH]; [reflexivity|].
  rewrite append_cons. simpl.
  intros [Hc Hp]%andb_prop. rewrite Hc. apply IH. exact Hp.
Qed.

Lemma trimEnd_app_white s pad :
  Backend.all_chars is_white_space pad = true ->
  trimEnd (s +:+ pad) = trimEnd s.
Proof.
  intros Hp. induction s as [|c s IH].
  - rewrite append_empty. apply trimEnd_white. exact Hp.
  - rewrite append_cons. simpl. rewrite IH. reflexivity.
Qed.

(** Left trimming stops at the first character that is not white space. *)
Lemma trimStart_app s pad :
  trimStart (s +:+ pad)
  = match trimStart s with
    | EmptyString => trimStart pad
    | kept => kept +:+ pad
    end.
Proof.
  induction s as [|c s IH].
  - rewrite append_empty. reflexivity.
  - rewrite append_cons. simpl.
    destruct (is_white_space c); [exact IH | reflexivity].
Qed.

(** White space around a string does not survive [trim], and [trim] does
    nothing to a string it has already trimmed. *)
Lemma trim_padding before s after :
  Backend.all_chars is_white_space before = true ->
  Backend.all_chars is_white_space after = true ->
  trim (before +:+ s +:+ after) = trim s.
Proof.
  intros Hb Ha. unfold trim.
  rewrite trimStart_app_white by exact Hb.
  rewrite trimStart_app.
  destruct (trimStart s) as [|c kept] eqn:Hs.
  - rewrite (trimStart_white after Ha). reflexivity.
  - apply trimEnd_app_white. exact Ha.
Qed.

Section EventFormFacts.

Variable parse_date : string -> EventsPage.time_value.
Variable now : Z.

Local Abbreviation validateForm := (CreateEventPage.validateForm parse_date now) (only parsing).

Lemma length_zero_iff_empty (s : string) : String.length s = 0%nat <-> s = "".
Proof. destruct s; simpl; split; congruence. Qed.

Lemma validate_title_None (f : CreateEventPage.formData) :
  CreateEventPage.validate_title f = None
  <-> (3 <= String.length (trim (CreateEventPage.title f)))%nat.
Proof.
  unfold CreateEventPage.validate_title.
  destruct (String.eqb_spec (trim (CreateEventPage.title f)) "") as [Ht|Ht].
  - rewrite Ht. simpl. split; [discriminate | lia].
  - destruct (Nat.ltb_spec (String.length (trim (CreateEventPage.title f))) 3);
      split; try discriminate; try lia; reflexivity.
Qed.

Lemma validate_location_None (f : CreateEventPage.formData) :
  CreateEventPage.validate_location f = None
  <-> (5 <= String.length (trim (CreateEventPage.location f)))%nat.
Proof.
  unfold CreateEventPage.validate_location.
  destruct (String.eqb_spec (trim (CreateEventPage.location f)) "") as [Hl|Hl].
  - rewrite Hl. simpl. split; [discriminate | lia].
  - destruct (Nat.ltb_spec (String.length (trim (CreateEventPage.location f))) 5);
      split; try discriminate; try lia; reflexivity.
Qed.

Lemma validate_date_time_None (f : CreateEventPage.formData) :
  CreateEventPage.validate_date_time parse_date now f = None
  <-> CreateEventPage.date_time f <> "" /\
      forall t, parse_date (CreateEventPage.date_time f) = Some t -> now < t.
Proof.
  unfold CreateEventPage.validate_date_time, CreateEventPage.not_after.
  destruct (String.eqb_spec (CreateEventPage.date_time f) "") as [Hd|Hd].
  - split; [discriminate | intros [H _]; contradiction].
  - destruct (parse_date (CreateEventPage.date_time f)) as [t|].
    + destruct (Z.leb_spec t now) as [Hle|Hlt]; split.
      * discriminate.
      * intros [_ H]. specialize (H t eq_refl). lia.
      * intros _. split; [exact Hd|]. intros t' [= <-]. exact Hlt.
      * reflexivity.
    + split; [|reflexivity]. intros _. split; [exact Hd|]. intros t [=].
Qed.

(** The form is accepted exactly when the trimmed title has at least 3
    characters, the trimmed location at least 5, and the date is filled in
    and not at or before the current time.  A date at exactly the current
    time is refused, while a date that does not parse is let through. *)
Theorem validateForm_accepts_exactly (f : CreateEventPage.formData) :
  ((validateForm f).2 = true <->
   (3 <= String.length (trim (CreateEventPage.title f)))%nat /\
   (5 <= String.length (trim (CreateEventPage.location f)))%nat /\
   CreateEventPage.date_time f <> "" /\
   forall t, parse_date (CreateEventPage.date_time f) = Some t -> now < t) /\
  ((validateForm f).2 = true <->
   (validateForm f).1
   = {| CreateEventPage.title_error := None;
        CreateEventPage.date_time_error := None;
        CreateEventPage.location_error := None |}) /\
  (parse_date (CreateEventPage.date_time f) = Some now ->
   CreateEventPage.date_time f <> "" ->
   CreateEventPage.date_time_error (validateForm f).1
   = Some "Event must be scheduled for the future") /\
  (parse_date (CreateEventPage.date_time f) = None ->
   CreateEventPage.date_time f <> "" ->
   CreateEventPage.date_time_error (validateForm f).1 = None).
Proof.
  pose proof (validate_title_None f) as Ht.
  pose proof (validate_location_None f) as Hl.
  pose proof (validate_date_time_None f) as Hd.
  unfold CreateEventPage.validateForm, CreateEventPage.no_errors.
  cbn [fst snd CreateEventPage.title_error CreateEventPage.date_time_error
       CreateEventPage.location_error].
  split; [|split; [|split]].
  - rewrite <- Ht, <- Hl, <- Hd.
    destruct (CreateEventPage.validate_title f),
      (CreateEventPage.validate_date_time parse_date now f),
      (CreateEventPage.validate_location f);
      split; try discriminate; try tauto; intros (? & ? & ?); discriminate.
  - destruct (CreateEventPage.validate_title f),
      (CreateEventPage.validate_date_time parse_date now f),
      (CreateEventPage.validate_location f);
      split; try discriminate; try reflexivity.
  - intros Hp Hne. unfold CreateEventPage.validate_date_time, CreateEventPage.not_after.
    apply String.eqb_neq in Hne. rewrite Hne, Hp, Z.leb_refl. reflexivity.
  - intros Hp Hne. apply Hd. split; [exact Hne|]. rewrite Hp. intros t [=].
Qed.

(** White space around the title or the location changes nothing in the
    verdict of the form, and a title or location made of white space only
    is reported as missing rather than as too short. *)
Theorem validateForm_ignores_padding (f : CreateEventPage.formData)
    (before after before' after' : string) :
  Backend.all_chars is_white_space before = true ->
  Backend.all_chars is_white_space after = true ->
  Backend.all_chars is_white_space before' = true ->
  Backend.all_chars is_white_space after' = true ->
  validateForm
    {| CreateEventPage.title := before +:+ CreateEventPage.title f +:+ after;
       CreateEventPage.date_time := CreateEventPage.date_time f;
       CreateEventPage.location := before' +:+ CreateEventPage.location f +:+ after';
       CreateEventPage.description := CreateEventPage.description f |}
  = validateForm f /\
  CreateEventPage.title_error
    (validateForm
       {| CreateEventPage.title := before;
          CreateEventPage.date_time := CreateEventPage.date_time f;
          CreateEventPage.location := CreateEventPage.location f;
          CreateEventPage.description := CreateEventPage.description f |}).1
  = Some "Event title is required" /\
  CreateEventPage.location_error
    (validateForm
       {| CreateEventPage.title := CreateEventPage.title f;
          CreateEventPage.date_time := CreateEventPage.date_time f;
          CreateEventPage.location := before';
          CreateEventPage.description := CreateEventPage.description f |}).1
  = Some "Location is required".
Proof.
  intros Hb Ha Hb' Ha'.
  unfold CreateEventPage.validateForm, CreateEventPage.validate_title,
    CreateEventPage.validate_location, CreateEventPage.validate_date_time.
  cbn [CreateEventPage.title CreateEventPage.location CreateEventPage.date_time
       fst snd CreateEventPage.title_error CreateEventPage.location_error].
  rewrite !trim_padding by assumption.
  split; [reflexivity|].
  unfold trim. rewrite (trimStart_white before Hb), (trimStart_white before' Hb').
  split; reflexivity.
Qed.

End EventFormFacts.

(* ===================================================================== *)
(** * More on the events page                                             *)
(* ===================================================================== *)

Lemma filter_sublist_of {A} (f g : A -> bool) (l : list A) :
  (forall x, f x = true -> g x = true) ->
  sublist (List.filter f l) (List.filter g l).
Proof.
  intros Hfg. induction l as [|x l IH]; simpl; [constructor|].
  destruct (f x) eqn:Hf.
  - rewrite (Hfg x Hf). constructor. exact IH.
  - destruct (g x); [constructor|]; exact IH.
Qed.

Lemma filter_sublist {A} (f : A -> bool) (l : list A) : sublist (List.filter f l) l.
Proof.
  induction l as [|x l IH]; simpl; [constructor|].
  destruct (f x); constructor; exact IH.
Qed.

Lemma filter_twice {A} (f : A -> bool) (l : list A) :
  List.filter f (List.filter f l) = List.filter f l.
Proof.
  induction l as [|x l IH]; simpl; [reflexivity|].
  destruct (f x) eqn:Hf; simpl; [rewrite Hf, IH|]; auto.
Qed.

Section EventsPageMore.

Variable parse_date : string -> EventsPage.time_value.
Variable toLowerCase : string -> string.
Variable now : Z.

Local Abbreviation matchesFilter := (EventsPage.matchesFilter parse_date now) (only parsing).
Local Abbreviation filteredEvents :=
  (EventsPage.filteredEvents parse_date toLowerCase now) (only parsing).
Local Abbreviation getEventStatus :=
  (EventsPageBadge.getEventStatus parse_date now) (only parsing).

(** The badge of an event says [upcoming] exactly when the [upcoming]
    filter matches it, and everything the [past] filter matches is badged
    [past]; but the events that are badged [past] and that the [past]
    filter leaves out are exactly those scheduled at the current time or
    with a date that does not parse. *)
Theorem badge_and_filters (e : EventsPage.event) :
  (getEventStatus (EventsPage.date_time e) = "upcoming"
   <-> matchesFilter "upcoming" e = true) /\
  (matchesFilter "past" e = true -> getEventStatus (EventsPage.date_time e) = "past") /\
  ((getEventStatus (EventsPage.date_time e) = "past" /\ matchesFilter "past" e = false)
   <-> (parse_date (EventsPage.date_time e) = None \/
        parse_date (EventsPage.date_time e) = Some now)).
Proof.
  unfold EventsPageBadge.getEventStatus, EventsPage.matchesFilter,
    EventsPage.isAfter, EventsPage.isBefore. simpl.
  destruct (parse_date (EventsPage.date_time e)) as [t|]; simpl.
  - destruct (Z.ltb_spec now t) as [Hup|Hup], (Z.ltb_spec t now) as [Hpast|Hpast];
      try lia.
    + split; [split; reflexivity|]. split; [discriminate|].
      split; [intros [H _]; discriminate | intros [H | [= H]]; [discriminate | lia]].
    + split; [split; discriminate|]. split; [reflexivity|].
      split; [intros [_ H]; discriminate | intros [H | [= H]]; [discriminate | lia]].
    + split; [split; discriminate|]. split; [discriminate|].
      split; [intros _; right; f_equal; lia | intros _; split; reflexivity].
  - split; [split; discriminate|]. split; [discriminate|].
    split; [intros _; left; reflexivity | intros _; split; reflexivity].
Qed.

(** The filtered list keeps the order of the fetched events and adds
    nothing; every filter shows a part of what [all] shows for the same
    search term; filtering what is shown changes nothing; no event is shown
    under both [upcoming] and [past]; and any filter value other than
    these two shows what [all] shows. *)
Theorem filteredEvents_structure (events : list EventsPage.event)
    (filter searchTerm : string) :
  sublist (filteredEvents events filter searchTerm)
          (filteredEvents events "all" searchTerm) /\
  sublist (filteredEvents events "all" searchTerm) events /\
  filteredEvents (filteredEvents events filter searchTerm) filter searchTerm
  = filteredEvents events filter searchTerm /\
  (forall e, In e (filteredEvents events "upcoming" searchTerm) ->
             ~ In e (filteredEvents events "past" searchTerm)) /\
  (filter <> "upcoming" -> filter <> "past" ->
   filteredEvents events filter searchTerm = filteredEvents events "all" searchTerm).
Proof.
  unfold EventsPage.filteredEvents.
  split; [apply filter_sublist_of; intros x [_ H]%andb_prop; exact H|].
  split; [apply filter_sublist|].
  split; [apply filter_twice|].
  split.
  - intros e [_ Hu]%filter_In [_ Hp]%filter_In.
    apply andb_prop in Hu as [Hu _]. apply andb_prop in Hp as [Hp _].
    unfold EventsPage.matchesFilter, EventsPage.isAfter, EventsPage.isBefore in Hu, Hp.
    simpl in Hu, Hp.
    destruct (parse_date (EventsPage.date_time e)) as [t|]; [|discriminate].
    apply Z.ltb_lt in Hu. apply Z.ltb_lt in Hp. lia.
  - intros Hu Hp. unfold EventsPage.matchesFilter.
    apply String.eqb_neq in Hu. apply String.eqb_neq in Hp.
    rewrite Hu, Hp. reflexivity.
Qed.

End EventsPageMore.

(* ===================================================================== *)
(** * Token storage                                                       *)
(* ===================================================================== *)

(** What is stored is the string form of what was passed: after
    [setTokens(a, r)] the two getters return [String(a)] and [String(r)],
    so [isAuthenticated()] holds as soon as [String(a)] is not empty, in
    particular after storing [undefined] or [null]; [clearTokens] undoes
    it.  Neither function touches any other key of the storage, and both
    leave the two slots filled or empty together. *)
Theorem token_storage_round_trip (a r : js_value) (w : world) :
  getAccessToken (setTokens a r w) = Some (to_string a) /\
  getRefreshToken (setTokens a r w) = Some (to_string r) /\
  isAuthenticated (setTokens a r w) = negb (String.eqb (to_string a) "") /\
  isAuthenticated (setTokens JSUndefined r w) = true /\
  isAuthenticated (setTokens JSNull r w) = true /\
  getAccessToken (clearTokens (setTokens a r w)) = None /\
  getRefreshToken (clearTokens (setTokens a r w)) = None /\
  isAuthenticated (clearTokens (setTokens a r w)) = false /\
  (forall k, k <> TOKEN_KEY -> k <> REFRESH_TOKEN_KEY ->
     getItem k (setTokens a r w) = getItem k w /\
     getItem k (clearTokens w) = getItem k w) /\
  tokens_paired (setTokens a r w) /\
  tokens_paired (clearTokens w).
Proof.
  unfold isAuthenticated.
  rewrite !getAccessToken_setTokens, getRefreshToken_setTokens,
    getAccessToken_clearTokens, getRefreshToken_clearTokens.
  repeat split; try reflexivity.
  - unfold getItem, setTokens, setItem. simpl.
    rewrite !lookup_insert_ne by congruence. reflexivity.
  - unfold getItem, clearTokens, removeItem. simpl.
    rewrite !lookup_delete_ne by congruence. reflexivity.
  - apply (setTokens_paired a r w).
  - apply (setTokens_paired a r w).
  - apply (clearTokens_paired w).
  - apply (clearTokens_paired w).
Qed.

(* ===================================================================== *)
(** * getCookie                                                           *)
(* ===================================================================== *)

Module PageScriptFacts.

Import PageScript.

Lemma includes_single_cons c ch s :
  includes (String c s) (String ch EmptyString) = false ->
  c <> ch /\ includes s (String ch EmptyString) = false.
Proof.
  change (includes (String c s) (String ch EmptyString))
    with (String.prefix (String ch EmptyString) (String c s)
          || includes s (String ch EmptyString)).
  intros [Hp Hs]%orb_false_elim. split; [|exact Hs].
  intros ->. simpl in Hp. destruct (Ascii.ascii_dec ch ch); [|contradiction].
  destruct s; discriminate.
Qed.

Lemma includes_single_app ch s t :
  includes s (String ch EmptyString) = false ->
  includes t (String ch EmptyString) = false ->
  includes (s +:+ t) (String ch EmptyString) = false.
Proof.
  intros Hs Ht. induction s as [|c s IH]; [exact Ht|].
  rewrite append_cons.
  apply includes_single_cons in Hs as [Hc Hs].
  change (includes (String c (s +:+ t)) (String ch EmptyString))
    with (String.prefix (String ch EmptyString) (String c (s +:+ t))
          || includes (s +:+ t) (String ch EmptyString)).
  rewrite (IH Hs), orb_false_r. simpl.
  destruct (Ascii.ascii_dec ch c) as [->|_]; [contradiction | reflexivity].
Qed.

Lemma white_has_no_semicolon pad :
  Backend.all_chars is_white_space pad = true -> includes pad ";" = false.
Proof.
  induction pad as [|c pad IH]; [reflexivity|]. simpl Backend.all_chars.
  intros [Hc Hp]%andb_prop.
  change (includes (String c pad) ";")
    with (String.prefix ";" (String c pad) || includes pad ";").
  rewrite (IH Hp), orb_false_r.
  destruct (String.prefix ";" (String c pad)) eqn:Hpre; [|reflexivity].
  apply BackendFacts.prefix_head in Hpre. subst c. discriminate Hc.
Qed.

Lemma split_without_separator s :
  includes s ";" = false -> split semicolon s = [s].
Proof.
  induction s as [|c s IH]; [reflexivity|].
  intros [Hc Hs]%includes_single_cons. simpl.
  destruct (Ascii.eqb_spec c semicolon) as [->|_]; [contradiction Hc; reflexivity|].
  rewrite (IH Hs). reflexivity.
Qed.

Lemma split_at_separator s rest :
  includes s ";" = false ->
  split semicolon (s +:+ ";" +:+ rest) = s :: split semicolon rest.
Proof.
  induction s as [|c s IH]; [reflexivity|].
  intros [Hc Hs]%includes_single_cons.
  rewrite append_cons. simpl.
  destruct (Ascii.eqb_spec c semicolon) as [->|_]; [contradiction Hc; reflexivity|].
  rewrite (IH Hs). reflexivity.
Qed.

Lemma append_empty_r (s : string) : s +:+ "" = s.
Proof. induction s as [|c s IH]; [reflexivity|]. rewrite append_cons, IH. reflexivity. Qed.

Lemma append_assoc (s t u : string) : (s +:+ t) +:+ u = s +:+ (t +:+ u).
Proof.
  induction s as [|c s IH]; [reflexivity|]. rewrite !append_cons, IH. reflexivity.
Qed.

Lemma substring_head k c s :
  String.substring 0 (S k) (String c s) = String c (String.substring 0 k s).
Proof. reflexivity. Qed.

Lemma eqb_cons c1 s1 c2 s2 :
  String.eqb (String c1 s1) (String c2 s2)
  = (if Ascii.eqb c1 c2 then String.eqb s1 s2 else false).
Proof. reflexivity. Qed.

(** The test of the loop recognises exactly the pairs named [name]. *)
Lemma name_test name n v :
  includes name "=" = false -> includes n "=" = false ->
  String.eqb (String.substring 0 (String.length name + 1) (n +:+ "=" +:+ v))
             (name +:+ "=")
  = String.eqb n name.
Proof.
  revert n. induction name as [|a name IH]; intros n Hname Hn.
  - rewrite (append_empty "="). destruct n as [|c n].
    + rewrite append_empty. destruct v; reflexivity.
    + apply includes_single_cons in Hn as [Hc _].
      rewrite (append_cons c n).
      change (String.length "" + 1)%nat with 1%nat.
      rewrite substring_head, eqb_cons.
      match goal with
      | |- context [Ascii.eqb ?x ?y] => destruct (Ascii.eqb_spec x y) as [He|_]
      end; [contradiction Hc; exact He | reflexivity].
  - apply includes_single_cons in Hname as [Ha Hname].
    rewrite (append_cons a name "=").
    change (String.length (String a name) + 1)%nat with (S (String.length name + 1)).
    destruct n as [|c n].
    + rewrite append_empty, (append_cons _ "" v), append_empty.
      rewrite substring_head, eqb_cons.
      match goal with
      | |- context [Ascii.eqb ?x ?y] => destruct (Ascii.eqb_spec x y) as [He|_]
      end; [contradiction Ha; symmetry; exact He | reflexivity].
    + apply includes_single_cons in Hn as [_ Hn].
      rewrite (append_cons c n), substring_head, !eqb_cons, (IH n Hname Hn).
      reflexivity.
Qed.

Lemma value_after_name n v :
  substring_from (String.length n + 1) (n +:+ "=" +:+ v) = v.
Proof.
  induction n as [|c n IH]; [reflexivity|]. rewrite append_cons. simpl. exact IH.
Qed.

Section GetCookieFacts.

Variable decodeURIComponent : string -> option string.

Lemma scan_piece name pad p rest :
  Backend.all_chars is_white_space pad = true ->
  well_formed_pair p -> includes name "=" = false ->
  scan decodeURIComponent name ((pad +:+ pair_string p) :: rest)
  = if String.eqb p.1 name then decoded decodeURIComponent (Some p.2)
    else scan decodeURIComponent name rest.
Proof.
  intros Hpad (_ & Hn & Htrim) Hname. simpl.
  replace (trim (pad +:+ pair_string p)) with (pair_string p).
  2:{ rewrite <- (append_empty_r (pair_string p)) at 2.
      rewrite (trim_padding pad (pair_string p) "" Hpad eq_refl). symmetry. exact Htrim. }
  unfold pair_string at 1. rewrite (name_test name p.1 p.2 Hname Hn).
  destruct (String.eqb_spec p.1 name) as [<-|_]; [|reflexivity].
  unfold pair_string. rewrite value_after_name. reflexivity.
Qed.

Lemma scan_cookie_string name pad jar :
  Backend.all_chars is_white_space pad = true ->
  Forall well_formed_pair jar -> includes name "=" = false ->
  jar <> [] ->
  scan decodeURIComponent name (split semicolon (pad +:+ cookie_string jar))
  = decoded decodeURIComponent (first_value name jar).
Proof.
  intros Hpad Hjar Hname. revert pad Hpad.
  induction Hjar as [|p jar Hp Hjar IH]; intros pad Hpad Hne; [contradiction|].
  destruct jar as [|q jar].
  - simpl cookie_string. rewrite split_without_separator.
    + rewrite (scan_piece name pad p [] Hpad Hp Hname). simpl.
      destruct (String.eqb p.1 name); reflexivity.
    + apply includes_single_app; [apply white_has_no_semicolon; exact Hpad|].
      apply Hp.
  - change (cookie_string (p :: q :: jar))
      with (pair_string p +:+ "; " +:+ cookie_string (q :: jar)).
    replace (pad +:+ pair_string p +:+ "; " +:+ cookie_string (q :: jar))
      with ((pad +:+ pair_string p) +:+ ";" +:+ (" " +:+ cookie_string (q :: jar)))
      by (rewrite !append_assoc; reflexivity).
    rewrite split_at_separator.
    + rewrite (scan_piece name pad p _ Hpad Hp Hname).
      rewrite (IH " ") by (reflexivity || discriminate). simpl first_value.
      destruct (String.eqb p.1 name); reflexivity.
    + apply includes_single_app; [apply white_has_no_semicolon; exact Hpad|].
      apply Hp.
Qed.

Lemma cookie_string_not_empty p jar : cookie_string (p :: jar) <> "".
Proof.
  assert (H : forall s t : string, s +:+ "=" +:+ t <> "").
  { intros s t. destruct s; [rewrite append_empty | rewrite append_cons]; discriminate. }
  destruct jar as [|q jar]; simpl; unfold pair_string.
  - apply H.
  - rewrite append_assoc. apply H.
Qed.

(** Reading a cookie back from the cookie string of a jar of well-formed
    pairs gives the decoded value of the first pair with exactly that name
    (a throw when that value does not decode), and [null] when no pair has
    that name or the cookie string is empty. *)
Theorem getCookie_reads_the_named_pair (name : string) (jar : list (string * string)) :
  Forall well_formed_pair jar ->
  includes name "=" = false ->
  getCookie decodeURIComponent name (cookie_string jar)
  = decoded decodeURIComponent (first_value name jar).
Proof.
  intros Hjar Hname. unfold getCookie.
  destruct jar as [|p jar]; [reflexivity|].
  destruct (String.eqb_spec (cookie_string (p :: jar)) "") as [He|_].
  - destruct (cookie_string_not_empty p jar He).
  - rewrite <- (append_empty (cookie_string (p :: jar))).
    apply scan_cookie_string; [reflexivity | exact Hjar | exact Hname | discriminate].
Qed.

End GetCookieFacts.

End PageScriptFacts.

(* ===================================================================== *)
(** * The sign-in form                                                    *)
(* ===================================================================== *)

Module LoginPageFacts.

Import LoginPage.

Lemma append_is_empty (s t : string) : s +:+ t = "" -> s = "" /\ t = "".
Proof.
  destruct s as [|c s]; [rewrite append_empty; auto|].
  rewrite append_cons. discriminate.
Qed.

Lemma append_is_cons (s t : string) c u :
  s +:+ t = String c u ->
  (s = "" /\ t = String c u) \/ (exists s', s = String c s' /\ u = s' +:+ t).
Proof.
  destruct s as [|c' s]; [rewrite append_empty; auto|].
  rewrite append_cons. intros [= -> <-]. right. eauto.
Qed.

Lemma language_empty_nullable r s : language r s -> s = "" -> nullable r = true.
Proof.
  induction 1 as [|p c Hp|r1 r2 s1 s2 H1 IH1 H2 IH2|r1 r2 s H IH|r1 r2 s H IH|r
                  |r s1 s2 H1 IH1 H2 IH2]; intros He; simpl; try reflexivity.
  - discriminate.
  - apply append_is_empty in He as [-> ->]. rewrite IH1, IH2; reflexivity.
  - rewrite IH; [reflexivity | exact He].
  - rewrite IH; [apply orb_true_r | exact He].
Qed.

Lemma nullable_language r : nullable r = true -> language r "".
Proof.
  induction r as [| |p|r1 IH1 r2 IH2|r1 IH1 r2 IH2|r IH]; simpl; intros H;
    try discriminate.
  - constructor.
  - apply andb_prop in H as [H1 H2].
    rewrite <- (append_empty ""). constructor; auto.
  - apply orb_prop in H as [H|H]; [apply language_Or_l | apply language_Or_r]; auto.
  - constructor.
Qed.

Lemma derivative_sound c r s : language (derivative c r) s -> language r (String c s).
Proof.
  revert s. induction r as [| |p|r1 IH1 r2 IH2|r1 IH1 r2 IH2|r IH]; simpl; intros s H.
  - inversion H.
  - inversion H.
  - destruct (p c) eqn:Hp; inversion H; subst. constructor. exact Hp.
  - assert (Hthen : forall t, language (Then (derivative c r1) r2) t ->
                              language (Then r1 r2) (String c t)).
    { intros t Ht. inversion Ht; subst.
      rewrite <- append_cons. constructor; auto. }
    destruct (nullable r1) eqn:Hn; [|auto].
    inversion H; subst; [auto|].
    rewrite <- (append_empty (String c s)).
    constructor; [apply nullable_language; exact Hn | auto].
  - inversion H; subst; [apply language_Or_l | apply language_Or_r]; auto.
  - inversion H; subst. rewrite <- append_cons. constructor; auto.
Qed.

Lemma derivative_complete r x :
  language r x -> forall c s, x = String c s -> language (derivative c r) s.
Proof.
  induction 1 as [|p c0 Hp|r1 r2 s1 s2 H1 IH1 H2 IH2|r1 r2 s0 H IH|r1 r2 s0 H IH|r
                  |r s1 s2 H1 IH1 H2 IH2]; intros c s He; simpl.
  - discriminate.
  - injection He as -> <-. rewrite Hp. constructor.
  - apply append_is_cons in He as [[-> ->] | (s1' & -> & ->)].
    + rewrite (language_empty_nullable r1 "" H1 eq_refl).
      apply language_Or_r. apply IH2. reflexivity.
    + assert (Hd : language (Then (derivative c r1) r2) (s1' +:+ s2))
        by (constructor; [apply IH1; reflexivity | exact H2]).
      destruct (nullable r1); [apply language_Or_l|]; exact Hd.
  - apply language_Or_l. apply IH. exact He.
  - apply language_Or_r. apply IH. exact He.
  - discriminate.
  - apply append_is_cons in He as [[-> ->] | (s1' & -> & ->)].
    + apply (IH2 c s eq_refl).
    + constructor; [apply IH1; reflexivity | exact H2].
Qed.

(** The matcher decides membership in the language of the expression. *)
Lemma matches_language r s : matches r s = true <-> language r s.
Proof.
  revert r. induction s as [|c s IH]; intros r; simpl.
  - split; [apply nullable_language | intros H; exact (language_empty_nullable r "" H eq_refl)].
  - rewrite IH. split; [apply derivative_sound|].
    intros H. exact (derivative_complete r _ H c s eq_refl).
Qed.

Lemma language_anything s : language (Many (Class any_char)) s.
Proof.
  induction s as [|c s IH]; [constructor|].
  change (String c s) with (String c "" +:+ s).
  constructor; [constructor; reflexivity | exact IH].
Qed.

Lemma language_many_class p s :
  language (Many (Class p)) s <-> Backend.all_chars p s = true.
Proof.
  split.
  - remember (Many (Class p)) as r eqn:Hr. intros H.
    induction H as [|q c Hq|r1 r2 s1 s2 H1 IH1 H2 IH2|r1 r2 s0 H IH|r1 r2 s0 H IH|r
                    |r s1 s2 H1 IH1 H2 IH2]; try discriminate; [reflexivity|].
    injection Hr as ->. inversion H1; subst.
    rewrite append_cons, append_empty. simpl.
    rewrite (IH2 eq_refl). rewrite H0. reflexivity.
  - induction s as [|c s IH]; simpl; [constructor|].
    intros [Hc Hs]%andb_prop.
    change (String c s) with (String c "" +:+ s).
    constructor; [constructor; exact Hc | auto].
Qed.

Lemma language_one_or_more p s :
  language (OneOrMore (Class p)) s <-> s <> "" /\ Backend.all_chars p s = true.
Proof.
  unfold OneOrMore. split.
  - intros H. inversion H; subst. inversion H2; subst.
    apply language_many_class in H4.
    rewrite append_cons, append_empty. simpl. rewrite H1, H4. split; [discriminate|reflexivity].
  - intros [Hne Hall]. destruct s as [|c s]; [contradiction|].
    simpl in Hall. apply andb_prop in Hall as [Hc Hs].
    change (String c s) with (String c "" +:+ s).
    constructor; [constructor; exact Hc | apply language_many_class; exact Hs].
Qed.

Lemma test_language r s :
  test r s = true <->
  exists before matched after,
    s = before +:+ matched +:+ after /\ language r matched.
Proof.
  unfold test. rewrite matches_language. split.
  - intros H. inversion H; subst. inversion H4; subst. eauto.
  - intros (before & matched & after & -> & H).
    constructor; [apply language_anything|].
    constructor; [exact H | apply language_anything].
Qed.

Lemma language_char ch s : language (Class (is_char ch)) s <-> s = String ch "".
Proof.
  split.
  - intros H. inversion H; subst. unfold is_char in H1.
    apply Ascii.eqb_eq in H1. subst. reflexivity.
  - intros ->. constructor. unfold is_char. apply Ascii.eqb_refl.
Qed.

(** The texts in which the pattern finds a match. *)
Lemma email_pattern_parts (s : string) :
  test email_pattern s = true <->
  exists before x y z after,
    s = before +:+ x +:+ "@" +:+ y +:+ "." +:+ z +:+ after /\
    (x <> "" /\ Backend.all_chars non_space x = true) /\
    (y <> "" /\ Backend.all_chars non_space y = true) /\
    (z <> "" /\ Backend.all_chars non_space z = true).
Proof.
  rewrite test_language. unfold email_pattern. split.
  - intros (before & matched & after & -> & H).
    inversion H as [| |? ? x r1 Hx H1| | | |]; subst.
    inversion H1 as [| |? ? a r2 Ha H2| | | |]; subst.
    inversion H2 as [| |? ? y r3 Hy H3| | | |]; subst.
    inversion H3 as [| |? ? d z Hd Hz| | | |]; subst.
    apply language_char in Ha. apply language_char in Hd. subst a d.
    apply language_one_or_more in Hx, Hy, Hz.
    exists before, x, y, z, after. split; [|auto].
    rewrite !PageScriptFacts.append_assoc. reflexivity.
  - intros (before & x & y & z & after & -> & Hx & Hy & Hz).
    exists before, (x +:+ "@" +:+ y +:+ "." +:+ z), after. split.
    + rewrite !PageScriptFacts.append_assoc. reflexivity.
    + constructor; [apply language_one_or_more; exact Hx|].
      constructor; [apply language_char; reflexivity|].
      constructor; [apply language_one_or_more; exact Hy|].
      constructor; [apply language_char; reflexivity|].
      apply language_one_or_more; exact Hz.
Qed.

Lemma all_chars_app p (s t : string) :
  Backend.all_chars p (s +:+ t) = Backend.all_chars p s && Backend.all_chars p t.
Proof.
  induction s as [|c s IH]; [reflexivity|].
  rewrite append_cons. simpl. rewrite IH, andb_assoc. reflexivity.
Qed.

Lemma trimStart_head s :
  trimStart s = "" \/ exists c rest, trimStart s = String c rest /\ is_white_space c = false.
Proof.
  induction s as [|c s IH]; simpl; [left; reflexivity|].
  destruct (is_white_space c) eqn:Hc; [exact IH | right; eauto].
Qed.

Lemma trimStart_empty s : trimStart s = "" -> Backend.all_chars is_white_space s = true.
Proof.
  induction s as [|c s IH]; simpl; [reflexivity|].
  destruct (is_white_space c); [exact IH | discriminate].
Qed.

Lemma trimEnd_keeps_head c rest : is_white_space c = false -> trimEnd (String c rest) <> "".
Proof.
  intros Hc. simpl. destruct (trimEnd rest); [rewrite Hc|]; discriminate.
Qed.

(** Trimming leaves nothing exactly when there was only white space. *)
Lemma trim_empty s : trim s = "" <-> Backend.all_chars is_white_space s = true.
Proof.
  unfold trim. split.
  - intros H. destruct (trimStart_head s) as [He | (c & rest & He & Hc)].
    + apply trimStart_empty. exact He.
    + rewrite He in H. destruct (trimEnd_keeps_head c rest Hc H).
  - intros H. rewrite (trimStart_white s H). reflexivity.
Qed.

Lemma includes_here (s t : string) c : includes (s +:+ String c t) (String c "") = true.
Proof.
  induction s as [|a s IH].
  - rewrite append_empty.
    change (includes (String c t) (String c ""))
      with (String.prefix (String c "") (String c t) || includes t (String c "")).
    simpl. destruct (Ascii.ascii_dec c c); [|contradiction].
    destruct t; reflexivity.
  - rewrite append_cons.
    change (includes (String a (s +:+ String c t)) (String c ""))
      with (String.prefix (String c "") (String a (s +:+ String c t))
            || includes (s +:+ String c t) (String c "")).
    rewrite IH. apply orb_true_r.
Qed.

(** The pattern of the page accepts exactly the texts with, somewhere
    inside, a run of non-space characters, an at sign, another run, a dot
    and a third run.  So every accepted text contains an at sign and a
    dot, and, the pattern not being anchored, stays accepted with anything
    put before or after it. *)
Theorem email_pattern_accepts_exactly (s : string) :
  (test email_pattern s = true <->
   exists before x y z after,
     s = before +:+ x +:+ "@" +:+ y +:+ "." +:+ z +:+ after /\
     (x <> "" /\ Backend.all_chars non_space x = true) /\
     (y <> "" /\ Backend.all_chars non_space y = true) /\
     (z <> "" /\ Backend.all_chars non_space z = true)) /\
  (test email_pattern s = true -> includes s "@" = true /\ includes s "." = true) /\
  (forall before after,
     test email_pattern s = true ->
     test email_pattern (before +:+ s +:+ after) = true).
Proof.
  split; [apply email_pattern_parts|]. split.
  - intros (before & x & y & z & after & -> & _)%email_pattern_parts. split.
    + replace (before +:+ x +:+ "@" +:+ y +:+ "." +:+ z +:+ after)
        with ((before +:+ x) +:+ String at_sign (y +:+ "." +:+ z +:+ after))
        by (rewrite !PageScriptFacts.append_assoc; reflexivity).
      apply includes_here.
    + replace (before +:+ x +:+ "@" +:+ y +:+ "." +:+ z +:+ after)
        with ((before +:+ x +:+ "@" +:+ y) +:+ String dot (z +:+ after))
        by (rewrite !PageScriptFacts.append_assoc; reflexivity).
      apply includes_here.
  - intros before after (b & x & y & z & a & -> & Hx & Hy & Hz)%email_pattern_parts.
    apply email_pattern_parts.
    exists (before +:+ b), x, y, z, (a +:+ after). split; [|auto].
    rewrite !PageScriptFacts.append_assoc. reflexivity.
Qed.

(** The form is accepted exactly when the pattern finds an address in the
    e-mail field and the password is not empty; the test for a missing
    e-mail never decides on its own.  An entry without an at sign is always
    refused, and whatever is accepted stays accepted with any text put
    before or after it. *)
Theorem login_form_accepts_exactly (f : formData) :
  ((validateForm f).2 = true <->
   test email_pattern (email f) = true /\ password f <> "") /\
  (test email_pattern (email f) = true -> trim (email f) <> "") /\
  (includes (email f) "@" = false -> email_error (validateForm f).1 <> None) /\
  (forall before after,
     (validateForm f).2 = true ->
     (validateForm {| email := before +:+ email f +:+ after;
                      password := password f |}).2 = true).
Proof.
  assert (Hfound : forall s, test email_pattern s = true -> trim s <> "").
  { intros s (before & x & y & z & after & -> & [Hx Hnx] & _)%email_pattern_parts
           Ht.
    apply trim_empty in Ht. rewrite !all_chars_app in Ht.
    destruct x as [|c x]; [contradiction|].
    simpl in Hnx, Ht. unfold non_space in Hnx.
    destruct (is_white_space c); [discriminate Hnx|].
    rewrite andb_false_r in Ht. discriminate Ht. }
  assert (Hiff : forall g, (validateForm g).2 = true <->
                           test email_pattern (email g) = true /\ password g <> "").
  { intros g. unfold validateForm, validate_email, validate_password. simpl.
    destruct (String.eqb_spec (password g) "") as [Hp|Hp];
      destruct (test email_pattern (email g)) eqn:Htest;
      destruct (String.eqb_spec (trim (email g)) "") as [He|He]; simpl;
      split; try discriminate; try tauto; try (intros [? ?]; discriminate).
    intros _. destruct (Hfound _ Htest He). }
  split; [apply Hiff|]. split; [apply Hfound|]. split.
  - intros Hat. unfold validateForm, validate_email. simpl.
    destruct (String.eqb (trim (email f)) ""); [discriminate|].
    destruct (test email_pattern (email f)) eqn:Htest; [|discriminate].
    apply email_pattern_parts in Htest
      as (before & x & y & z & after & He & _).
    rewrite He in Hat.
    rewrite <- PageScriptFacts.append_assoc in Hat.
    rewrite (append_cons _ "" (y +:+ "." +:+ z +:+ after)), append_empty in Hat.
    rewrite includes_here in Hat. discriminate.
  - intros before after [Htest Hp]%Hiff. apply Hiff. simpl. split; [|exact Hp].
    apply email_pattern_parts in Htest
      as (b & x & y & z & a & -> & Hx & Hy & Hz).
    apply email_pattern_parts.
    exists (before +:+ b), x, y, z, (a +:+ after). split; [|auto].
    rewrite !PageScriptFacts.append_assoc. reflexivity.
Qed.

End LoginPageFacts.

(* ===================================================================== *)
(** * The further properties on examples                                  *)
(* ===================================================================== *)


Lemma first_dispatch_carries_stored_token_witness :
  exists w' out sent rest,
    api Scenario.always_401 Scenario.refresh_issues_new ViaFetch 2
      Scenario.stored_session Scenario.events_request = Some (w', out) /\
    network_log w' = (network_log Scenario.stored_session ++ Sent sent :: rest)%list /\
    url sent = url Scenario.events_request /\
    method sent = method Scenario.events_request /\
    _retry sent = _retry Scenario.events_request /\
    (forall token, getAccessToken Scenario.stored_session = Some token -> token <> "" ->
       Authorization sent = Some ("Bearer " +:+ token)) /\
    (isAuthenticated Scenario.stored_session = false -> sent = Scenario.events_request).
Proof.
  apply (first_dispatch_carries_stored_token
           Scenario.always_401 Scenario.refresh_issues_new ViaFetch
           2 Scenario.stored_session Scenario.events_request).
  lia.
Defined.

Lemma reply_other_than_401_is_passed_through_witness :
  exists w',
    api Examples.server_error Scenario.refresh_issues_new ViaAxiosPost 1
      Scenario.stored_session Scenario.events_request
      = Some (w', settle (request_interceptor Scenario.stored_session
                            Scenario.events_request)
                    (Examples.server_error (network_log Scenario.stored_session)
                       (request_interceptor Scenario.stored_session
                          Scenario.events_request))) /\
    localStorage w' = localStorage Scenario.stored_session /\
    location_href w' = location_href Scenario.stored_session /\
    network_log w' =
      (network_log Scenario.stored_session
         ++ [Sent (request_interceptor Scenario.stored_session
                     Scenario.events_request)])%list.
Proof.
  apply (reply_other_than_401_is_passed_through
           Examples.server_error Scenario.refresh_issues_new ViaAxiosPost
           1 Scenario.stored_session Scenario.events_request).
  - lia.
  - intros d. discriminate.
Defined.

Lemma unauthorized_without_refresh_token_ends_session_witness :
  exists w',
    api Scenario.always_401 Scenario.refresh_issues_new ViaFetch 1
      Scenario.empty_world Scenario.events_request
      = Some (w', Rejected (AxiosError
                              (with_retry (request_interceptor Scenario.empty_world
                                             Scenario.events_request))
                              (Some (401, "token_not_valid")))) /\
    getAccessToken w' = None /\
    getRefreshToken w' = None /\
    location_href w' = "/login" /\
    network_log w' =
      (network_log Scenario.empty_world
         ++ [Sent (request_interceptor Scenario.empty_world Scenario.events_request)])%list.
Proof.
  apply (unauthorized_without_refresh_token_ends_session
           Scenario.always_401 Scenario.refresh_issues_new ViaFetch
           1 Scenario.empty_world Scenario.events_request "token_not_valid").
  - lia.
  - reflexivity.
  - reflexivity.
  - reflexivity.
Defined.

Lemma recovered_request_resolves_witness :
  exists w',
    api Scenario.accepts_new_access Scenario.refresh_issues_new ViaFetch 2
      Scenario.stored_session Scenario.events_request
      = Some (w', Resolved 200 "alice"
                    (with_Authorization ("Bearer " +:+ "new-access")
                       (with_retry (request_interceptor Scenario.stored_session
                                      Scenario.events_request)))) /\
    getAccessToken w' = Some "new-access" /\
    getRefreshToken w' = Some "refresh-1" /\
    location_href w' = location_href Scenario.stored_session.
Proof.
  apply (recovered_request_resolves
           Scenario.accepts_new_access Scenario.refresh_issues_new ViaFetch
           2 Scenario.stored_session Scenario.events_request
           "refresh-1" "token_not_valid" "new-access" 200 "alice").
  - lia.
  - reflexivity.
  - vm_compute. reflexivity.
  - discriminate.
  - vm_compute. reflexivity.
  - exists 200. split; reflexivity.
  - vm_compute. reflexivity.
  - reflexivity.
Defined.


Lemma thrown_refresh_ends_session_witness :
  exists w',
    api Scenario.always_401 Examples.refresh_unreachable ViaFetch 2
      Scenario.stored_session Scenario.events_request
      = Some (w', Rejected RefreshError) /\
    getAccessToken w' = None /\
    getRefreshToken w' = None /\
    location_href w' = "/login" /\
    network_log w' =
      (network_log Scenario.stored_session
         ++ [Sent (request_interceptor Scenario.stored_session Scenario.events_request);
             RefreshPosted "refresh-1"])%list.
Proof.
  apply (thrown_refresh_ends_session
           Scenario.always_401 Examples.refresh_unreachable ViaFetch
           2 Scenario.stored_session Scenario.events_request
           "refresh-1" "token_not_valid").
  - lia.
  - reflexivity.
  - vm_compute. reflexivity.
  - discriminate.
  - reflexivity.
  - reflexivity.
Defined.


Lemma accepted_login_opens_session_witness :
  exists w' p',
    login Examples.accepts_credentials Scenario.refresh_issues_new
      Examples.prop_access Examples.prop_refresh Examples.prop_user
      Examples.prop_first_name Examples.prop_field 1 Scenario.empty_world
      Examples.signed_out
      = Some (w', (p', {| success := true; error := None; errors := None |})) /\
    getAccessToken w'
      = Some (to_string (Examples.prop_access
                           (Examples.TokenReply "access-1" "refresh-1" (Some "Ada")))) /\
    getRefreshToken w'
      = Some (to_string (Examples.prop_refresh
                           (Examples.TokenReply "access-1" "refresh-1" (Some "Ada")))) /\
    location_href w' = location_href Scenario.empty_world /\
    auth p' = {| user := Some (Examples.UserObject "Ada"); isLoading := false |} /\
    toasts p' = (toasts Examples.signed_out
                 ++ [ToastSuccess ("Welcome back, "
                                   +:+ to_string (Examples.prop_first_name
                                                    (Examples.UserObject "Ada"))
                                   +:+ "!")])%list /\
    ProtectedRoute (auth p') = Children /\
    PublicRoute (auth p') = Navigate "/dashboard" /\
    (to_string (Examples.prop_access
                  (Examples.TokenReply "access-1" "refresh-1" (Some "Ada"))) <> "" ->
     forall config,
       Authorization (request_interceptor w' config)
       = Some ("Bearer " +:+ to_string
                 (Examples.prop_access
                    (Examples.TokenReply "access-1" "refresh-1" (Some "Ada"))))).
Proof.
  apply (accepted_login_opens_session
           Examples.accepts_credentials Scenario.refresh_issues_new
           Examples.prop_access Examples.prop_refresh Examples.prop_user
           Examples.prop_first_name Examples.prop_field
           1 Scenario.empty_world Examples.signed_out 200
           (Examples.TokenReply "access-1" "refresh-1" (Some "Ada"))
           (Examples.UserObject "Ada")).
  - lia.
  - reflexivity.
  - reflexivity.
  - reflexivity.
Defined.

Lemma login_reply_without_user_still_stores_tokens_witness :
  exists w' p',
    login Examples.forgets_user Scenario.refresh_issues_new
      Examples.prop_access Examples.prop_refresh Examples.prop_user
      Examples.prop_first_name Examples.prop_field 1 Scenario.empty_world
      Examples.signed_out
      = Some (w', (p', {| success := false;
                          error := Some (FieldString
                                     "Login failed. Please check your credentials.");
                          errors := None |})) /\
    getAccessToken w'
      = Some (to_string (Examples.prop_access
                           (Examples.TokenReply "access-1" "refresh-1" None))) /\
    getRefreshToken w'
      = Some (to_string (Examples.prop_refresh
                           (Examples.TokenReply "access-1" "refresh-1" None))) /\
    auth p' = {| user := None; isLoading := false |} /\
    ProtectedRoute (auth p') = Navigate "/login" /\
    isAuthenticated w'
      = negb (String.eqb (to_string (Examples.prop_access
                                       (Examples.TokenReply "access-1" "refresh-1" None)))
                         "").
Proof.
  apply (login_reply_without_user_still_stores_tokens
           Examples.forgets_user Scenario.refresh_issues_new
           Examples.prop_access Examples.prop_refresh Examples.prop_user
           Examples.prop_first_name Examples.prop_field
           1 Scenario.empty_world Examples.signed_out 200
           (Examples.TokenReply "access-1" "refresh-1" None)).
  - lia.
  - reflexivity.
  - reflexivity.
  - reflexivity.
Defined.

Lemma rejected_login_keeps_user_witness :
  exists p' message,
    login Examples.rejects_credentials Scenario.refresh_issues_new
      Examples.prop_access Examples.prop_refresh Examples.prop_user
      Examples.prop_first_name Examples.prop_field 1 Scenario.empty_world
      Examples.signed_out
      = Some (record_event (Sent login_request) Scenario.empty_world,
              (p', {| success := false; error := Some message; errors := None |})) /\
    user (auth p') = user (auth Examples.signed_out) /\
    isLoading (auth p') = false /\
    toasts p' = (toasts Examples.signed_out ++ [ToastError message])%list /\
    field_truthy message = true /\
    (error_data (AxiosError login_request
                   (Some (400, Examples.ErrorReply
                                 (FieldString "Invalid email or password")))) = None ->
     message = FieldString "Login failed. Please check your credentials.").
Proof.
  apply (rejected_login_keeps_user
           Examples.rejects_credentials Scenario.refresh_issues_new
           Examples.prop_access Examples.prop_refresh Examples.prop_user
           Examples.prop_first_name Examples.prop_field
           1 Scenario.empty_world Examples.signed_out
           (record_event (Sent login_request) Scenario.empty_world)
           (AxiosError login_request
              (Some (400, Examples.ErrorReply (FieldString "Invalid email or password"))))).
  reflexivity.
Defined.

Lemma rejected_registration_returns_errors_witness :
  exists w' p' message,
    register Examples.rejects_credentials Scenario.refresh_issues_new
      Examples.prop_access Examples.prop_refresh Examples.prop_user
      Examples.prop_first_name Examples.prop_field 1 Scenario.empty_world
      Examples.signed_out
      = Some (w', (p', {| success := false; error := Some message;
                          errors := Some (Examples.ErrorReply
                                            (FieldString "Invalid email or password")) |})) /\
    localStorage w' = localStorage Scenario.empty_world /\
    location_href w' = location_href Scenario.empty_world /\
    user (auth p') = user (auth Examples.signed_out) /\
    isLoading (auth p') = false /\
    toasts p' = (toasts Examples.signed_out ++ [ToastError message])%list /\
    message = register_message Examples.prop_field
                (Some (Examples.ErrorReply (FieldString "Invalid email or password"))).
Proof.
  apply (rejected_registration_returns_errors
           Examples.rejects_credentials Scenario.refresh_issues_new
           Examples.prop_access Examples.prop_refresh Examples.prop_user
           Examples.prop_first_name Examples.prop_field
           1 Scenario.empty_world Examples.signed_out 400
           (Examples.ErrorReply (FieldString "Invalid email or password"))).
  - lia.
  - reflexivity.
  - reflexivity.
  - lia.
Defined.


Lemma retryDelay_backoff_witness :
  1000 <= QueryProvider.retryDelay 1 /\
  QueryProvider.retryDelay 1 <= QueryProvider.retryDelay 3 /\
  QueryProvider.retryDelay 3 <= 30000 /\
  (1 <= 4 -> QueryProvider.retryDelay 1 = 1000 * 2 ^ 1) /\
  (1 <= 3 -> QueryProvider.retryDelay (1 + 1) = 2 * QueryProvider.retryDelay 1) /\
  (5 <= 1 -> QueryProvider.retryDelay 1 = 30000).
Proof.
  apply (retryDelay_backoff 1 3). lia.
Defined.

Lemma validateForm_ignores_padding_witness :
  CreateEventPage.validateForm Scenario.parse_date Examples.one_second_earlier
    {| CreateEventPage.title :=
         "  " +:+ CreateEventPage.title Examples.standup_form +:+ " ";
       CreateEventPage.date_time := CreateEventPage.date_time Examples.standup_form;
       CreateEventPage.location :=
         " " +:+ CreateEventPage.location Examples.standup_form +:+ "";
       CreateEventPage.description := CreateEventPage.description Examples.standup_form |}
  = CreateEventPage.validateForm Scenario.parse_date Examples.one_second_earlier
      Examples.standup_form /\
  CreateEventPage.title_error
    (CreateEventPage.validateForm Scenario.parse_date Examples.one_second_earlier
       {| CreateEventPage.title := "  ";
          CreateEventPage.date_time := CreateEventPage.date_time Examples.standup_form;
          CreateEventPage.location := CreateEventPage.location Examples.standup_form;
          CreateEventPage.description :=
            CreateEventPage.description Examples.standup_form |}).1
  = Some "Event title is required" /\
  CreateEventPage.location_error
    (CreateEventPage.validateForm Scenario.parse_date Examples.one_second_earlier
       {| CreateEventPage.title := CreateEventPage.title Examples.standup_form;
          CreateEventPage.date_time := CreateEventPage.date_time Examples.standup_form;
          CreateEventPage.location := " ";
          CreateEventPage.description :=
            CreateEventPage.description Examples.standup_form |}).1
  = Some "Location is required".
Proof.
  apply (validateForm_ignores_padding
           Scenario.parse_date Examples.one_second_earlier Examples.standup_form
           "  " " " " " "").
  - reflexivity.
  - reflexivity.
  - reflexivity.
  - reflexivity.
Defined.

Lemma jar_well_formed : Forall PageScript.well_formed_pair Examples.jar.
Proof. repeat constructor. Qed.

Lemma getCookie_reads_the_named_pair_witness :
  PageScript.getCookie Examples.no_escapes "csrftoken"
    (PageScript.cookie_string Examples.jar)
  = PageScript.decoded Examples.no_escapes
      (PageScript.first_value "csrftoken" Examples.jar).
Proof.
  apply (PageScriptFacts.getCookie_reads_the_named_pair
           Examples.no_escapes "csrftoken" Examples.jar).
  - exact jar_well_formed.
  - reflexivity.
Defined.
